(** * Coincidence: link tables, coincidence tables and their ratios

    A shallow embedding of [coincidence/coincidence.py] (the later version,
    with its reference builders from [coincidence/tests/test_coincidence.py])
    and of the earlier top-level [coincidence.py].

    ** The model of numpy's float arrays

    Every array of the program is made with [dtype=float].  An element is
    modelled by [npfloat]: a finite value carried as an exact rational, the
    two infinities and NaN (numpy's missing marker).  The special values
    follow IEEE-754 (NaN is unequal to everything, it absorbs every
    arithmetic operation, opposite infinities add up to NaN, zero divided by
    zero is NaN, a nonzero value divided by zero is an infinity).  Finite
    arithmetic is exact: the program's finite data are series identifiers,
    which it only compares, and 0/1 indicators, whose sums and products are
    integers that binary64 represents exactly; only the rounding of the two
    final quotients is abstracted.  The sign of zero is not modelled.
    Sums and products of other finite values are rounded by binary64 and
    not by this model (and [np.dot] need not round as [np.sum] of the
    products does), so what is stated about the value of a sum or of a
    product is stated on 0/1/missing data.  The conversion of Python
    numbers by [np.array(..., dtype=float)] is [np_array] below; the
    builders are written on arrays that are float already.

    One-dimensional arrays are lists, two-dimensional arrays are lists of
    rows.  A Python exception is [None]. *)

From Stdlib Require Import QArith.
From stdpp Require Import base list.

(** ** Floats *)

Inductive npfloat : Type :=
| Fin (q : Q)
| Inf (neg : bool)
| NaN.

(** [np.isnan] *)
Definition isnan (x : npfloat) : bool :=
  match x with NaN => true | _ => false end.

(** Sign bit of a finite value. *)
Definition Qneg (q : Q) : bool :=
  match Qnum q with Zneg _ => true | _ => false end.

(** [q == 0] on rationals. *)
Definition Qzero (q : Q) : bool :=
  match Qnum q with Z0 => true | _ => false end.

(** [a + b] *)
Definition fadd (a b : npfloat) : npfloat :=
  match a, b with
  | NaN, _ | _, NaN => NaN
  | Inf s, Inf t => if Bool.eqb s t then Inf s else NaN
  | Inf s, Fin _ => Inf s
  | Fin _, Inf t => Inf t
  | Fin x, Fin y => Fin (x + y)
  end.

(** [a - b] *)
Definition fsub (a b : npfloat) : npfloat :=
  match a, b with
  | NaN, _ | _, NaN => NaN
  | Inf s, Inf t => if Bool.eqb s t then NaN else Inf s
  | Inf s, Fin _ => Inf s
  | Fin _, Inf t => Inf (negb t)
  | Fin x, Fin y => Fin (x - y)
  end.

(** [a * b] *)
Definition fmul (a b : npfloat) : npfloat :=
  match a, b with
  | NaN, _ | _, NaN => NaN
  | Inf s, Inf t => Inf (xorb s t)
  | Inf s, Fin y => if Qzero y then NaN else Inf (xorb s (Qneg y))
  | Fin x, Inf t => if Qzero x then NaN else Inf (xorb (Qneg x) t)
  | Fin x, Fin y => Fin (x * y)
  end.

(** [a / b] on numpy scalars: a zero divisor gives NaN or an infinity (and a
    warning), never an exception. *)
Definition fdiv (a b : npfloat) : npfloat :=
  match a, b with
  | NaN, _ | _, NaN => NaN
  | Inf _, Inf _ => NaN
  | Inf s, Fin y => Inf (xorb s (Qneg y))
  | Fin _, Inf _ => Fin 0
  | Fin x, Fin y =>
      if Qzero y then (if Qzero x then NaN else Inf (Qneg x))
      else Fin (x / y)
  end.

(** [a == b] *)
Definition feqb (a b : npfloat) : bool :=
  match a, b with
  | Fin x, Fin y => Qeq_bool x y
  | Inf s, Inf t => Bool.eqb s t
  | _, _ => false
  end.

(** A boolean stored into a float array. *)
Definition of_bool (b : bool) : npfloat := if b then Fin 1 else Fin 0.

(** An integer ([len(...)]) promoted to float. *)
Definition of_nat (n : nat) : npfloat := Fin (inject_Z (Z.of_nat n)).

(** ** Arrays *)

Abbreviation vec := list (only parsing).
Abbreviation mat A := (list (list A)) (only parsing).

(** [np.zeros((n, m))] *)
Definition zeros (n m : nat) : mat npfloat := replicate n (replicate m (Fin 0)).

(** Broadcasting a column [xs[:, None]] against a row [ys[None, :]] under a
    binary operation: entry (i, j) is [f xs[i] ys[j]]. *)
Definition broadcast {A B C} (f : A -> B -> C) (xs : vec A) (ys : vec B) : mat C :=
  (fun a => (fun b => f a b) <$> ys) <$> xs.

(** Elementwise operation on two arrays of the same shape. *)
Definition mat_zip {A B C} (f : A -> B -> C) (M : mat A) (N : mat B) : mat C :=
  zip_with (zip_with f) M N.

(** [arr[:, :] = vals]: every element of [arr] is overwritten by the value
    of [vals] at its position, converted to float. *)
Definition assign_all (arr : mat npfloat) (vals : mat bool) : mat npfloat :=
  mat_zip (fun _ v => of_bool v) arr vals.

(** [arr[mask] = v] with a boolean mask of the shape of [arr]. *)
Definition set_where (arr : mat npfloat) (mask : mat bool) (v : npfloat) : mat npfloat :=
  mat_zip (fun x (m : bool) => if m then v else x) arr mask.

(** [arr[i, j]] *)
Definition get {A} (M : mat A) (i j : nat) : option A :=
  M !! i ≫= fun row => row !! j.

(** ** The later version: [coincidence/coincidence.py]

    Each builder starts with [np.array(..., dtype=float)].  The definitions
    here take the array that this first line returns; the conversion itself
    is [np_array] below, and [link_table_of_sequence] is [link_table] with
    its first line. *)

Definition link_table (series_ids : vec npfloat) : mat npfloat :=
  let n := length series_ids in
  let arr := zeros n n in
  let arr := assign_all arr (broadcast feqb series_ids series_ids) in
  let arr := set_where arr (broadcast (fun c r => isnan (fadd c r)) series_ids series_ids) NaN in
  arr.

Definition jaccard_table (col : vec npfloat) : mat npfloat :=
  let res := broadcast fmul col col in
  let is_zero := (fun c => feqb c (Fin 0)) <$> col in
  let res := set_where res (broadcast orb is_zero is_zero) (Fin 0) in
  res.

(** ** Loops and exceptions

    A loop body that can raise is a function into [option]; the loop stops at
    the first exception. *)

Fixpoint for_each {A S} (l : list A) (body : A -> S -> option S) (s : S) : option S :=
  match l with
  | [] => Some s
  | x :: l => s' ← body x s; for_each l body s'
  end.

(** [for i in range(n): body] *)
Definition for_range {S} (n : nat) (body : nat -> S -> option S) (s : S) : option S :=
  for_each (seq 0 n) body s.

(** [enumerate(xs)] *)
Definition enumerate {A} (xs : vec A) : list (nat * A) := zip (seq 0 (length xs)) xs.

(** [arr[i, j] = v], an [IndexError] when (i, j) is outside of [arr]. *)
Definition set_item (arr : mat npfloat) (i j : nat) (v : npfloat) : option (mat npfloat) :=
  row ← arr !! i; _ ← row !! j; Some (<[i := <[j := v]> row]> arr).

(** ** The reference builders (nested loops) *)

Definition equal_to (col : vec npfloat) : option (mat npfloat) :=
  let n := length col in
  let arr := zeros n n in
  for_range n (fun i arr =>
    for_range n (fun j arr =>
      a ← col !! i; b ← col !! j;
      if isnan a || isnan b then set_item arr i j NaN
      else set_item arr i j (of_bool (feqb a b))) arr) arr.

Definition both_1 (col : vec npfloat) : option (mat npfloat) :=
  let n := length col in
  let arr := zeros n n in
  for_range n (fun i arr =>
    for_range n (fun j arr =>
      a ← col !! i; b ← col !! j;
      if feqb (Fin 0) a || feqb (Fin 0) b then set_item arr i j (Fin 0)
      else if isnan (fadd a b) then set_item arr i j NaN
      else set_item arr i j (Fin 1)) arr) arr.

(** ** The ratio reducer *)

(** Elementwise operation on two one-dimensional arrays, with numpy's
    broadcasting: operands of one length are combined position by position,
    an operand of length 1 is repeated along the other one (so lengths 1
    and 0 give an empty array), any other pair of lengths is a
    [ValueError]. *)
Definition elementwise {A B C} (f : A -> B -> C) (xs : vec A) (ys : vec B) : option (vec C) :=
  if decide (length xs = length ys) then Some (zip_with f xs ys)
  else match xs, ys with
       | [x], _ => Some ((fun y => f x y) <$> ys)
       | _, [y] => Some ((fun x => f x y) <$> xs)
       | _, _ => None
       end.

(** Position by position on two one-dimensional arrays that must have one
    length, without broadcasting. *)
Definition aligned {A B C} (f : A -> B -> C) (xs : vec A) (ys : vec B) : option (vec C) :=
  if decide (length xs = length ys) then Some (zip_with f xs ys) else None.

(** [xs[mask]] with a boolean mask: the elements at the [True] positions.
    An empty mask is accepted on an array of any length and selects
    nothing; any other mask of another length is an [IndexError]. *)
Fixpoint compress {A} (xs : vec A) (mask : vec bool) : vec A :=
  match xs, mask with
  | x :: xs, m :: mask => if m then x :: compress xs mask else compress xs mask
  | _, _ => []
  end.

Definition mask_index {A} (xs : vec A) (mask : vec bool) : option (vec A) :=
  if decide (length xs = length mask) then Some (compress xs mask)
  else match mask with
       | [] => Some []
       | _ :: _ => None
       end.

(** [np.sum]: finite addition is exact in this model, so the order in which
    numpy adds the elements is immaterial. *)
Definition np_sum (xs : vec npfloat) : npfloat := foldl fadd (Fin 0) xs.

(** The mask [~np.isnan(link_pairs + jacc_pairs)] of [calc_ratios]. *)
Definition not_nan_mask (link_pairs jacc_pairs : vec npfloat) : option (vec bool) :=
  elementwise (fun l j => negb (isnan (fadd l j))) link_pairs jacc_pairs.

Definition calc_ratios (link_pairs jacc_pairs : vec npfloat) : option (npfloat * npfloat) :=
  not_nan ← not_nan_mask link_pairs jacc_pairs;
  link_pairs' ← mask_index link_pairs not_nan;
  jacc_pairs' ← mask_index jacc_pairs not_nan;
  let n_links := np_sum link_pairs' in
  let n_jaccs := np_sum jacc_pairs' in
  prod ← elementwise fmul link_pairs' jacc_pairs';
  let n_jl := np_sum prod in
  let jl_rat := fdiv n_jl n_links in
  let jnl_rat := fdiv (fsub n_jaccs n_jl) (fsub (of_nat (length link_pairs')) n_links) in
  Some (jl_rat, jnl_rat).

(** ** What the tests use of numpy *)

(** [np.tril_indices(n, k)]: the positions (i, j) of an n by n array with
    [j <= i + k], row by row. *)
Definition tril_indices (n : nat) (k : Z) : list (nat * nat) :=
  i ← seq 0 n; j ← seq 0 n;
  if (Z.of_nat j <=? Z.of_nat i + k)%Z then [(i, j)] else [].

(** [arr[inds]] with index arrays. *)
Definition take_inds {A} (arr : mat A) (inds : list (nat * nat)) : option (vec A) :=
  mapM (fun ij => get arr ij.1 ij.2) inds.

(** [np.array_equal(a, b, equal_nan=True)], the tests' [nan_eq]. *)
Definition feqb_nan (a b : npfloat) : bool :=
  feqb a b || (isnan a && isnan b).

Definition array_equal {A} (e : A -> A -> bool) (xs ys : vec A) : bool :=
  bool_decide (length xs = length ys) && forallb (fun p => e p.1 p.2) (zip xs ys).

Definition nan_eq (M N : mat npfloat) : bool :=
  array_equal (array_equal feqb_nan) M N.

(** [arr.T] of a two-dimensional array with rows of one length. *)
Definition ncols {A} (M : mat A) : nat :=
  match M with [] => 0 | row :: _ => length row end.

Definition transpose {A} (M : mat A) : mat A :=
  (fun j => omap (fun row => row !! j) M) <$> seq 0 (ncols M).

(** The pipeline of the tests: both tables, the strict lower triangle of
    each, the two ratios. *)
Definition pipeline (in_col feature : vec npfloat) : option (npfloat * npfloat) :=
  let link_arr := link_table in_col in
  let inds := tril_indices (length in_col) (-1) in
  link_pairs ← take_inds link_arr inds;
  jacc_pairs ← take_inds (jaccard_table feature) inds;
  calc_ratios link_pairs jacc_pairs.

(** ** Python values under a truth test

    [sameas] tests the result of its [op] argument with [if]: a float is
    true unless it equals 0 (NaN is true), a boolean is itself. *)

Inductive pyval : Type :=
| PyFloat (x : npfloat)
| PyBool (b : bool).

Definition truth (v : pyval) : bool :=
  match v with
  | PyFloat x => negb (feqb x (Fin 0))
  | PyBool b => b
  end.

(** [operator.eq] *)
Definition operator_eq (a b : npfloat) : pyval := PyBool (feqb a b).

(** [np.all(a == b)] on two arrays of one shape. *)
Definition np_all_eq (M N : mat npfloat) : bool :=
  array_equal (array_equal feqb) M N.

(** ** The earlier version: top-level [coincidence.py] *)

Module Earlier.

(** [arr[:, i] = vals] *)
Definition set_column (arr : mat npfloat) (i : nat) (vals : vec bool) : option (mat npfloat) :=
  if decide (length arr = length vals) then
    mapM (fun rv => _ ← rv.1 !! i; Some (<[i := of_bool rv.2]> rv.1)) (zip arr vals)
  else None.

Definition link_table (series_ids : vec npfloat) : option (mat npfloat) :=
  let n := length series_ids in
  let arr := zeros n n in
  for_each (enumerate series_ids) (fun '(i, series) arr =>
    if isnan series then Some arr
    else set_column arr i ((fun x => feqb x series) <$> series_ids)) arr.

(** [np.dot] of two one-dimensional arrays: the sum of the products, a
    [ValueError] when the lengths differ ([np.dot] does not broadcast).
    In binary64 [np.dot] need not round as [np.sum] of the rounded products
    does; the two are the same number on 0/1 data, where nothing is
    rounded. *)
Definition dot (xs ys : vec npfloat) : option npfloat :=
  np_sum <$> aligned fmul xs ys.

Definition calc_ratios (link_pairs jacc_pairs : vec npfloat) : option (npfloat * npfloat) :=
  let n_links := np_sum link_pairs in
  let n_jaccs := np_sum jacc_pairs in
  let n_pairs := length link_pairs in
  n_jl ← dot link_pairs jacc_pairs;
  let jl_rat := fdiv n_jl n_links in
  let jnl_rat := fdiv (fsub n_jaccs n_jl) (fsub (of_nat n_pairs) n_links) in
  Some (jl_rat, jnl_rat).

(** [np.outer(col, col)] *)
Definition jaccard_table (col : vec npfloat) : mat npfloat :=
  broadcast fmul col col.

(** [arr[:, mask] = v] with a boolean mask over the columns, an [IndexError]
    when the mask has not the length of the rows. *)
Definition set_columns_where (arr : mat npfloat) (mask : vec bool) (v : npfloat)
    : option (mat npfloat) :=
  mapM (fun row =>
          if decide (length row = length mask)
          then Some (zip_with (fun x (m : bool) => if m then v else x) row mask)
          else None) arr.

Definition jaccard_table_slow (col : vec npfloat) : option (mat npfloat) :=
  let n := length col in
  (* [np.repeat(col[:, None], n, axis=1)]: row i is n copies of col[i] *)
  let arr := (fun a => replicate n a) <$> col in
  set_columns_where arr ((fun c => feqb c (Fin 0)) <$> col) (Fin 0).

(** [a and b] *)
Definition funcand (a b : npfloat) : pyval :=
  if truth (PyFloat a) then PyFloat b else PyFloat a.

Definition sameas (col : vec npfloat) (op : npfloat -> npfloat -> pyval)
    : option (mat npfloat) :=
  let n := length col in
  let arr := zeros n n in
  for_range n (fun i arr =>
    for_range n (fun j arr =>
      a ← col !! i; b ← col !! j;
      if truth (op a b) then set_item arr i j (Fin 1) else Some arr) arr) arr.

(** The pipeline of the earlier tests. *)
Definition pipeline (in_col feature : vec npfloat) : option (npfloat * npfloat) :=
  arr ← link_table in_col;
  let inds := tril_indices (length in_col) (-1) in
  link_pairs ← take_inds arr inds;
  jacc_pairs ← take_inds (jaccard_table feature) inds;
  calc_ratios link_pairs jacc_pairs.

End Earlier.

(** ** The test vectors *)

Definition z (n : Z) : npfloat := Fin (inject_Z n).

Definition in_col_nan : vec npfloat := [z 0; z 1; z 1; z 2; z 3; NaN; z 3; z 4].
Definition feature_nan : vec npfloat := [z 0; NaN; z 1; z 0; z 1; NaN; z 1; z 0].
Definition in_col_1 : vec npfloat := [z 0; z 1; z 1; z 2; z 3; z 3; z 3; z 4].
Definition feature_1 : vec npfloat := [z 0; z 0; z 1; z 0; z 1; z 1; z 1; z 0].
Definition in_col_2 : vec npfloat := [z 0; z 0; z 0; z 1; z 2].
Definition feature_2 : vec npfloat := [z 1; z 1; z 0; z 0; z 1].

(** ** The data model of the specification *)

(** [x == 0], [x == 1] *)
Definition is0 (x : npfloat) : bool := feqb x (Fin 0).
Definition is1 (x : npfloat) : bool := feqb x (Fin 1).

(** A feature value, and an entry of a pair vector: 0, 1 or missing. *)
Definition tri (x : npfloat) : bool := is0 x || is1 x || isnan x.

(** A series identifier: a finite number or missing. *)
Definition ident (x : npfloat) : bool :=
  match x with Fin _ | NaN => true | Inf _ => false end.

(** The fully observed positions of two index-aligned pair vectors: those
    where neither value is missing. *)
Definition observed (p : npfloat * npfloat) : bool :=
  negb (isnan p.1) && negb (isnan p.2).

Definition kept (link_pairs jacc_pairs : vec npfloat) : list (npfloat * npfloat) :=
  List.filter observed (zip link_pairs jacc_pairs).

(** The ratios over a list of (link, coincidence) pairs: sums of the link
    values, of the coincidence values and of their products. *)
Definition ratios_over (ps : list (npfloat * npfloat)) : npfloat * npfloat :=
  let n_links := np_sum ps.*1 in
  let n_jaccs := np_sum ps.*2 in
  let n_jl := np_sum ((fun p => fmul p.1 p.2) <$> ps) in
  (fdiv n_jl n_links,
   fdiv (fsub n_jaccs n_jl) (fsub (of_nat (length ps)) n_links)).

(** Number of elements that satisfy a test. *)
Definition count {A} (p : A -> bool) (l : list A) : nat := length (List.filter p l).

(** The linked and the non-linked pairs among the fully observed ones. *)
Definition n_linked (link_pairs jacc_pairs : vec npfloat) : nat :=
  count (fun p => is1 p.1) (kept link_pairs jacc_pairs).

Definition n_not_linked (link_pairs jacc_pairs : vec npfloat) : nat :=
  count (fun p => is0 p.1) (kept link_pairs jacc_pairs).

(** ** Python numbers and their conversion to float

    [np.array(series_ids, dtype=float)], the first line of [link_table],
    converts a sequence of Python numbers.  A Python [float] is a binary64
    value already and is kept; a Python [int] is rounded to the nearest
    binary64 value, ties to even, and an [int] that rounds beyond the
    largest binary64 value is an [OverflowError]. *)

Inductive pynumber : Type :=
| NInt (n : Z)
| NFloat (x : npfloat).

(** A non-negative integer rounded to 53 significant bits, ties to even. *)
Definition round53 (m : Z) : Z :=
  let e := (Z.log2 m + 1 - 53)%Z in
  if (e <=? 0)%Z then m
  else
    let q := Z.shiftr m e in
    let r := Z.land m (Z.ones e) in
    let half := Z.shiftl 1 (e - 1) in
    let q' := if (half <? r)%Z || ((r =? half)%Z && Z.odd q) then (q + 1)%Z else q in
    Z.shiftl q' e.

(** [float(n)] on a Python [int]. *)
Definition float_of_int (n : Z) : option npfloat :=
  let m := round53 (Z.abs n) in
  if (2 ^ 1024 <=? m)%Z then None else Some (Fin (inject_Z (Z.sgn n * m))).

Definition float_of (v : pynumber) : option npfloat :=
  match v with
  | NInt n => float_of_int n
  | NFloat x => Some x
  end.

(** [np.array(xs, dtype=float)] *)
Definition np_array (xs : list pynumber) : option (vec npfloat) :=
  mapM float_of xs.

(** [link_table(series_ids)] called on a sequence of Python numbers: the
    conversion of its first line, then the array computation [link_table]
    above on the converted array. *)
Definition link_table_of_sequence (series_ids : list pynumber) : option (mat npfloat) :=
  arr ← np_array series_ids; Some (link_table arr).

(** The rationals that are binary64 values: the integer multiples of
    2^-1074 that have at most 53 significant bits and lie below 2^1024. *)
Definition binary64 (q : Q) : bool :=
  let N := (Qnum q * 2 ^ 1074)%Z in
  let d := Zpos (Qden q) in
  (N mod d =? 0)%Z &&
  (let M := Z.abs (N / d) in (round53 M =? M)%Z && (M <? 2 ^ 2098)%Z).

(** An identifier of the data model as Python gives it: an [int], a finite
    [float], or the missing marker [np.nan]. *)
Definition number_ok (v : pynumber) : bool :=
  match v with
  | NInt _ => true
  | NFloat (Fin q) => binary64 q
  | NFloat NaN => true
  | NFloat (Inf _) => false
  end.

Definition missing (v : pynumber) : bool :=
  match v with NFloat NaN => true | _ => false end.

(** The number an identifier stands for, and equality of two identifiers
    as numbers (Python's [==] on ints and floats). *)
Definition value_of (v : pynumber) : npfloat :=
  match v with
  | NInt n => Fin (inject_Z n)
  | NFloat x => x
  end.

Definition same_number (x y : pynumber) : bool := feqb (value_of x) (value_of y).

(** The rule of the link table in the words of the specification: missing
    when one of the two identifiers is missing, else 1 when the two
    identifiers are equal and 0 when they are not. *)
Definition link_rule_as_claimed (ids : list pynumber) : Prop :=
  forall i j x y, ids !! i = Some x -> ids !! j = Some y ->
    exists M, link_table_of_sequence ids = Some M /\
      get M i j = Some (if missing x || missing y then NaN
                        else if same_number x y then Fin 1 else Fin 0).

(** The identifiers of [test_jaccard_nan] as the test writes them. *)
Definition in_col_nan_py : list pynumber :=
  [NInt 0; NInt 1; NInt 1; NInt 2; NInt 3; NFloat NaN; NInt 3; NInt 4].

(** ** Entries of the tables

    What each builder computes for one pair of input values; the closed
    forms below state that a table is the broadcast of its entry function. *)

(** Entry of the link table for the identifiers [a] and [b]. *)
Definition link_entry (a b : npfloat) : npfloat :=
  if isnan (fadd a b) then NaN else of_bool (feqb a b).

(** Entry of the coincidence table for the feature values [a] and [b]. *)
Definition jaccard_entry (a b : npfloat) : npfloat :=
  if is0 a || is0 b then Fin 0 else fmul a b.

(** Entry written by [equal_to] for the identifiers [a] and [b]. *)
Definition equal_to_entry (a b : npfloat) : npfloat :=
  if isnan a || isnan b then NaN else of_bool (feqb a b).

(** Entry written by [both_1] for the feature values [a] and [b]. *)
Definition both_1_entry (a b : npfloat) : npfloat :=
  if feqb (Fin 0) a || feqb (Fin 0) b then Fin 0
  else if isnan (fadd a b) then NaN else Fin 1.

(** Entry of the earlier link table: row identifier [a], column identifier
    [b]; the column of a missing identifier is skipped and stays 0. *)
Definition earlier_link_entry (a b : npfloat) : npfloat :=
  if isnan b then Fin 0 else of_bool (feqb a b).

(** A definite observation: 0 or 1. *)
Definition bit (x : npfloat) : bool := is0 x || is1 x.

(** Entry of the earlier [jaccard_table_slow]: row value [a], column value
    [b]; a column whose value is 0 is zeroed, the others repeat the rows. *)
Definition slow_entry (a b : npfloat) : npfloat :=
  if is0 b then Fin 0 else a.

(** Entry written by the earlier [sameas] under the operation [op]. *)
Definition sameas_entry (op : npfloat -> npfloat -> pyval) (a b : npfloat) : npfloat :=
  of_bool (truth (op a b)).

(** A finite number: neither missing nor an infinity. *)
Definition finite (x : npfloat) : bool :=
  match x with Fin _ => true | _ => false end.

(** Among the fully observed pairs: the linked ones that coincide, and the
    non-linked ones that coincide. *)
Definition n_linked_coincident (link_pairs jacc_pairs : vec npfloat) : nat :=
  count (fun p => is1 p.1 && is1 p.2) (kept link_pairs jacc_pairs).

Definition n_not_linked_coincident (link_pairs jacc_pairs : vec npfloat) : nat :=
  count (fun p => is0 p.1 && is1 p.2) (kept link_pairs jacc_pairs).

(** A square array of side [n]. *)
Definition square {A} (n : nat) (M : mat A) : Prop :=
  length M = n /\ Forall (fun row => length row = n) M.

(** Run a bind whose first computation has returned. *)
Ltac bind_some :=
  lazymatch goal with
  | |- context [Some ?x ≫= ?f] => change (Some x ≫= f) with (f x); cbv beta
  end.

(** * Lemmas *)

(** ** Lemmas on floats *)

Lemma Qzero_spec q : Qzero q = true <-> (q == 0)%Q.
Proof.
  unfold Qzero, Qeq. destruct q as [[|p|p] d]; simpl; split; intros H; try done.
Qed.

Lemma feqb_sym a b : feqb a b = feqb b a.
Proof.
  destruct a as [x|s|], b as [y|t|]; simpl; try done.
  - unfold Qeq_bool. rewrite !Z.eqb_sym with (x := (Qnum x * _)%Z). done.
  - by destruct s, t.
Qed.

Lemma fadd_comm a b : fadd a b = fadd b a.
Proof.
  destruct a as [[x1 x2]|s|], b as [[y1 y2]|t|]; simpl; try done.
  - unfold Qplus; simpl. by rewrite Z.add_comm, Pos.mul_comm.
  - by destruct s, t.
Qed.

Lemma fmul_comm a b : fmul a b = fmul b a.
Proof.
  destruct a as [[x1 x2]|s|], b as [[y1 y2]|t|]; simpl; try done.
  - unfold Qmult; simpl. by rewrite Z.mul_comm, Pos.mul_comm.
  - by rewrite xorb_comm.
  - by rewrite xorb_comm.
  - by rewrite xorb_comm.
Qed.

Lemma feqb_nan_refl x : feqb_nan x x = true.
Proof.
  destruct x as [q|s|]; unfold feqb_nan; simpl; try done.
  - by rewrite (proj2 (Qeq_bool_iff q q) (Qeq_refl q)).
  - by destruct s.
Qed.

(** ** Lemmas on arrays *)

Section arrays.
Context {A B C D : Type}.
Implicit Types (xs : list A) (ys : list B).

Lemma get_broadcast (f : A -> B -> C) xs ys i j :
  get (broadcast f xs ys) i j = a ← xs !! i; b ← ys !! j; Some (f a b).
Proof.
  unfold get, broadcast. rewrite list_lookup_fmap.
  destruct (xs !! i) as [a|]; simpl; [|done].
  rewrite list_lookup_fmap. by destruct (ys !! j).
Qed.

Lemma zip_with_fmap_same (f : B -> C -> D) (g : A -> B) (h : A -> C) xs :
  zip_with f (g <$> xs) (h <$> xs) = (fun x => f (g x) (h x)) <$> xs.
Proof. induction xs as [|x xs IH]; simpl; [done|]. f_equal. exact IH. Qed.

Lemma broadcast_fmap {A' B'} (f : A' -> B' -> C) (g : A -> A') (h : B -> B') xs ys :
  broadcast f (g <$> xs) (h <$> ys) = broadcast (fun a b => f (g a) (h b)) xs ys.
Proof.
  unfold broadcast. rewrite <- list_fmap_compose. apply list_fmap_ext.
  intros _ a _. simpl. by rewrite <- list_fmap_compose.
Qed.

Lemma length_broadcast (f : A -> B -> C) xs ys :
  length (broadcast f xs ys) = length xs.
Proof. unfold broadcast. by rewrite length_fmap. Qed.
End arrays.

Lemma mat_zip_broadcast {A B C D E} (f : C -> D -> E) (g : A -> B -> C) (h : A -> B -> D)
    (xs : list A) (ys : list B) :
  mat_zip f (broadcast g xs ys) (broadcast h xs ys)
  = broadcast (fun a b => f (g a b) (h a b)) xs ys.
Proof.
  unfold mat_zip, broadcast. rewrite zip_with_fmap_same.
  apply list_fmap_ext. intros _ a _. apply zip_with_fmap_same.
Qed.

Lemma replicate_fmap {A B} (l : list A) (c : B) :
  replicate (length l) c = (fun _ => c) <$> l.
Proof. induction l as [|x l IH]; simpl; [done|]. f_equal. exact IH. Qed.

Lemma zeros_broadcast {A B} (xs : list A) (ys : list B) :
  zeros (length xs) (length ys) = broadcast (fun _ _ => Fin 0) xs ys.
Proof. unfold zeros, broadcast. by rewrite !replicate_fmap. Qed.

(** ** The two builders in closed form *)

Lemma link_table_broadcast ids :
  link_table ids = broadcast link_entry ids ids.
Proof.
  unfold link_table, set_where, assign_all.
  rewrite zeros_broadcast, !mat_zip_broadcast. done.
Qed.

Lemma jaccard_table_broadcast col :
  jaccard_table col = broadcast jaccard_entry col col.
Proof.
  unfold jaccard_table, set_where.
  rewrite broadcast_fmap, mat_zip_broadcast. done.
Qed.

Lemma link_entry_sym a b : link_entry a b = link_entry b a.
Proof. unfold link_entry. by rewrite fadd_comm, feqb_sym. Qed.

Lemma jaccard_entry_sym a b : jaccard_entry a b = jaccard_entry b a.
Proof. unfold jaccard_entry. by rewrite orb_comm, fmul_comm. Qed.

Lemma isnan_fadd_ident a b :
  ident a = true -> ident b = true -> isnan (fadd a b) = isnan a || isnan b.
Proof. by destruct a, b. Qed.

Lemma feqb_Fin_refl q : feqb (Fin q) (Fin q) = true.
Proof. simpl. apply Qeq_bool_iff. reflexivity. Qed.

(** ** Transposition *)

Lemma column_broadcast {A B C} (f : A -> B -> C) (xs : list A) (ys : list B) j b :
  ys !! j = Some b ->
  omap (fun row => row !! j) (broadcast f xs ys) = (fun a => f a b) <$> xs.
Proof.
  intros Hj. unfold broadcast.
  induction xs as [|a xs IH]; simpl; [done|].
  rewrite list_lookup_fmap, Hj. simpl. f_equal. exact IH.
Qed.

Lemma transpose_broadcast {A C} (f : A -> A -> C) (xs : list A) :
  transpose (broadcast f xs xs) = broadcast (fun a b => f b a) xs xs.
Proof.
  unfold transpose.
  assert (Hn : ncols (broadcast f xs xs) = length xs).
  { destruct xs; simpl; [done|]. by rewrite length_fmap. }
  rewrite Hn. apply list_eq. intros j.
  unfold broadcast at 2. rewrite !list_lookup_fmap.
  destruct (xs !! j) as [b|] eqn:Hj; simpl.
  - rewrite lookup_seq_lt by (by eapply lookup_lt_Some). simpl. f_equal.
    by apply column_broadcast.
  - rewrite lookup_seq_ge; [done|]. by apply lookup_ge_None.
Qed.

(** ** Loop rules *)

Lemma for_each_seq_invariant {S} (I : nat -> S -> Prop) (body : nat -> S -> option S) m :
  forall k s,
    I k s ->
    (forall i t, k <= i < k + m -> I i t -> exists t', body i t = Some t' /\ I (Datatypes.S i) t') ->
    exists s', for_each (seq k m) body s = Some s' /\ I (k + m) s'.
Proof.
  induction m as [|m IH]; intros k s Hk Hstep; simpl.
  - exists s. by rewrite Nat.add_0_r.
  - destruct (Hstep k s) as (t & -> & Ht); [lia|done|]. simpl.
    destruct (IH (Datatypes.S k) t Ht) as (s' & Hs' & HI).
    + intros i u Hi. apply Hstep. lia.
    + exists s'. split; [done|]. by replace (k + Datatypes.S m) with (Datatypes.S k + m) by lia.
Qed.

Lemma for_range_invariant {S} (I : nat -> S -> Prop) (body : nat -> S -> option S) n s :
  I 0 s ->
  (forall i t, i < n -> I i t -> exists t', body i t = Some t' /\ I (Datatypes.S i) t') ->
  exists s', for_range n body s = Some s' /\ I n s'.
Proof.
  intros H0 Hstep. apply (for_each_seq_invariant I body n 0 s H0).
  intros i t Hi. apply Hstep. lia.
Qed.

Lemma for_enumerate_invariant {A S} (I : nat -> S -> Prop)
    (body : nat * A -> S -> option S) (xs : list A) s :
  I 0 s ->
  (forall i x t, xs !! i = Some x -> I i t ->
     exists t', body (i, x) t = Some t' /\ I (Datatypes.S i) t') ->
  exists s', for_each (enumerate xs) body s = Some s' /\ I (length xs) s'.
Proof.
  unfold enumerate. intros H0 Hstep.
  assert (Hgen : forall l k t, (forall i x, l !! i = Some x -> xs !! (k + i) = Some x) -> I k t ->
            exists s', for_each (zip (seq k (length l)) l) body t = Some s' /\ I (k + length l) s').
  { induction l as [|x l IH]; intros k t Hl Hk; simpl.
    - exists t. by rewrite Nat.add_0_r.
    - destruct (Hstep k x t) as (t' & -> & Ht'); [|done|].
      { rewrite <- (Nat.add_0_r k). by apply Hl. }
      simpl. destruct (IH (Datatypes.S k) t') as (s' & Hs' & HI); [|done|].
      { intros i y Hi. replace (Datatypes.S k + i) with (k + Datatypes.S i) by lia. by apply Hl. }
      exists s'. split; [done|].
      by replace (k + Datatypes.S (length l)) with (Datatypes.S k + length l) by lia. }
  apply (Hgen xs 0 s); [|done]. by intros i x Hi.
Qed.

(** ** Filling an array entry by entry *)

Lemma set_item_row arr i j v row :
  arr !! i = Some row -> j < length row ->
  set_item arr i j v = Some (<[i := <[j := v]> row]> arr).
Proof.
  intros Hi Hj. unfold set_item. rewrite Hi. simpl.
  destruct (lookup_lt_is_Some_2 row j Hj) as [x ->]. done.
Qed.

(** The inner loop over [j] writes row [i]. *)
Lemma fill_row (F : npfloat -> npfloat) (col : list npfloat)
    (body : nat -> list (list npfloat) -> option (list (list npfloat))) i arr row :
  arr !! i = Some row -> length row = length col ->
  (forall j t b, col !! j = Some b -> body j t = set_item t i j (F b)) ->
  for_range (length col) body arr = Some (<[i := F <$> col]> arr).
Proof.
  intros Hi Hlen Hbody.
  destruct (for_range_invariant
    (fun k t => t = <[i := (F <$> take k col) ++ drop k row]> arr) body (length col) arr)
    as (s' & -> & ->).
  - simpl. rewrite drop_0. by rewrite list_insert_id.
  - intros k t Hk ->.
    destruct (lookup_lt_is_Some_2 col k Hk) as [b Hb].
    assert (Hik : i < length arr) by (by eapply lookup_lt_Some).
    eexists. split; [|reflexivity].
    rewrite (Hbody k _ b Hb).
    erewrite set_item_row; [| by apply list_lookup_insert_eq |].
    2:{ rewrite length_app, length_fmap, length_take, length_drop. lia. }
    rewrite list_insert_insert_eq. do 2 f_equal.
    rewrite (take_S_r col k b Hb), fmap_app. simpl.
    rewrite insert_app_r_alt by (rewrite length_fmap, length_take; lia).
    rewrite length_fmap, length_take.
    replace (k - k `min` length col) with 0 by lia.
    assert (Hd : exists x, drop k row = x :: drop (Datatypes.S k) row).
    { destruct (lookup_lt_is_Some_2 row k ltac:(lia)) as [x Hx].
      exists x. by rewrite (drop_S row x k Hx). }
    destruct Hd as [x ->]. simpl. by rewrite <- app_assoc.
  - rewrite firstn_all, drop_ge by lia. by rewrite app_nil_r.
Qed.

(** The two nested loops write the whole array. *)
Lemma fill_table (F : npfloat -> npfloat -> npfloat) (col : list npfloat)
    (body : nat -> nat -> list (list npfloat) -> option (list (list npfloat))) :
  (forall i j t a b, col !! i = Some a -> col !! j = Some b ->
     body i j t = set_item t i j (F a b)) ->
  for_range (length col) (fun i arr => for_range (length col) (fun j arr => body i j arr) arr)
    (zeros (length col) (length col))
  = Some (broadcast F col col).
Proof.
  intros Hbody. set (n := length col). set (arr0 := zeros n n).
  destruct (for_range_invariant
    (fun k t => t = broadcast F (take k col) col ++ drop k arr0)
    (fun i arr => for_range n (fun j arr => body i j arr) arr) n arr0)
    as (s' & -> & ->).
  - simpl. by rewrite drop_0.
  - intros k t Hk ->.
    destruct (lookup_lt_is_Some_2 col k Hk) as [a Ha].
    eexists. split; [|reflexivity].
    assert (Hlen : length (broadcast F (take k col) col) = k).
    { rewrite length_broadcast, length_take. lia. }
    assert (Hrow : (broadcast F (take k col) col ++ drop k arr0) !! k
                   = Some (replicate n (Fin 0))).
    { rewrite lookup_app_r by lia. rewrite Hlen, Nat.sub_diag, lookup_drop, Nat.add_0_r.
      unfold arr0, zeros. by apply lookup_replicate_2. }
    unfold n at 1.
    rewrite (fill_row (F a) col _ k _ _ Hrow); [| by rewrite length_replicate |].
    2:{ intros j t b Hb. by apply Hbody. }
    f_equal. rewrite (take_S_r col k a Ha).
    assert (Hb : broadcast F (take k col ++ [a]) col
                 = broadcast F (take k col) col ++ [F a <$> col]).
    { unfold broadcast. by rewrite fmap_app. }
    rewrite Hb.
    rewrite insert_app_r_alt by lia. rewrite Hlen, Nat.sub_diag.
    assert (Hd : drop k arr0 = replicate n (Fin 0) :: drop (Datatypes.S k) arr0).
    { apply drop_S. unfold arr0, zeros. by apply lookup_replicate_2. }
    rewrite Hd. simpl. by rewrite <- app_assoc.
  - unfold arr0, n, zeros. rewrite firstn_all.
    rewrite drop_ge; [by rewrite app_nil_r|]. by rewrite length_replicate.
Qed.

(** ** The reference builders in closed form *)

Lemma equal_to_broadcast col :
  equal_to col = Some (broadcast equal_to_entry col col).
Proof.
  unfold equal_to. apply fill_table.
  intros i j t a b -> ->. unfold mbind, option_bind, equal_to_entry. cbv beta iota.
  by destruct (isnan a || isnan b).
Qed.

Lemma both_1_broadcast col :
  both_1 col = Some (broadcast both_1_entry col col).
Proof.
  unfold both_1. apply fill_table.
  intros i j t a b -> ->. unfold mbind, option_bind, both_1_entry. cbv beta iota.
  destruct (feqb (Fin 0) a || feqb (Fin 0) b); [done|].
  by destruct (isnan (fadd a b)).
Qed.

(** ** The earlier link table in closed form *)

Lemma set_column_rows arr i vals :
  length arr = length vals ->
  Forall (fun row => i < length row) arr ->
  Earlier.set_column arr i vals
  = Some (zip_with (fun row (v : bool) => <[i := of_bool v]> row) arr vals).
Proof.
  intros Hlen Hrows. unfold Earlier.set_column.
  rewrite decide_True by done. clear Hlen.
  revert vals. induction Hrows as [|row arr Hrow Hrows IH]; intros [|v vals]; simpl; try done.
  destruct (lookup_lt_is_Some_2 row i Hrow) as [x ->]. simpl.
  specialize (IH vals). simpl in IH. rewrite IH. done.
Qed.

Lemma earlier_link_table_broadcast ids :
  Earlier.link_table ids = Some (broadcast earlier_link_entry ids ids).
Proof.
  unfold Earlier.link_table. set (n := length ids).
  destruct (for_enumerate_invariant
    (fun k t => t = (fun a => (earlier_link_entry a <$> take k ids)
                              ++ replicate (n - k) (Fin 0)) <$> ids)
    (fun '(i, series) arr =>
       if isnan series then Some arr
       else Earlier.set_column arr i ((fun x => feqb x series) <$> ids))
    ids (zeros n n)) as (s' & -> & ->).
  - simpl. rewrite Nat.sub_0_r. unfold n, zeros. by rewrite replicate_fmap.
  - intros k c t Hc ->.
    assert (Hk : k < n) by (by eapply lookup_lt_Some).
    assert (Hnext : forall a v, v = earlier_link_entry a c ->
              <[k := v]> ((earlier_link_entry a <$> take k ids) ++ replicate (n - k) (Fin 0))
              = (earlier_link_entry a <$> take (S k) ids) ++ replicate (n - S k) (Fin 0)).
    { intros a v ->. rewrite (take_S_r ids k c Hc), fmap_app. simpl.
      rewrite insert_app_r_alt by (rewrite length_fmap, length_take; lia).
      rewrite length_fmap, length_take.
      replace (k - k `min` length ids) with 0 by (fold n; lia).
      replace (n - k) with (S (n - S k)) by lia. simpl. by rewrite <- app_assoc. }
    eexists. split; [|reflexivity].
    destruct (isnan c) eqn:Hnan.
    + f_equal. apply list_fmap_ext. intros _ a _.
      rewrite <- (Hnext a (Fin 0)).
      * symmetry. apply list_insert_id.
        rewrite lookup_app_r by (rewrite length_fmap, length_take; lia).
        rewrite length_fmap, length_take.
        apply lookup_replicate_2. fold n. lia.
      * unfold earlier_link_entry. by rewrite Hnan.
    + rewrite set_column_rows.
      * f_equal. rewrite zip_with_fmap_same. apply list_fmap_ext. intros _ a _.
        apply Hnext. unfold earlier_link_entry. by rewrite Hnan.
      * by rewrite !length_fmap.
      * apply Forall_fmap, Forall_forall. intros a _. simpl.
        rewrite length_app, length_fmap, length_take, length_replicate. fold n. lia.
  - f_equal. unfold broadcast. apply list_fmap_ext. intros _ a _.
    fold n. rewrite Nat.sub_diag. simpl. unfold n. by rewrite firstn_all, app_nil_r.
Qed.

(** ** Comparing arrays *)

Lemma array_equal_fmap {A B} (e : B -> B -> bool) (f g : A -> B) (l : list A) :
  Forall (fun x => e (f x) (g x) = true) l ->
  array_equal e (f <$> l) (g <$> l) = true.
Proof.
  intros H. unfold array_equal. rewrite !length_fmap, bool_decide_eq_true_2 by done.
  simpl. induction H as [|x l Hx Hl IH]; simpl; [done|]. by rewrite Hx.
Qed.

Lemma nan_eq_broadcast (f g : npfloat -> npfloat -> npfloat) (xs : list npfloat) :
  (forall a b, a ∈ xs -> b ∈ xs -> feqb_nan (f a b) (g a b) = true) ->
  nan_eq (broadcast f xs xs) (broadcast g xs xs) = true.
Proof.
  intros H. unfold nan_eq, broadcast. apply array_equal_fmap.
  apply Forall_forall. intros a Ha. apply array_equal_fmap.
  apply Forall_forall. intros b Hb. by apply H.
Qed.

Lemma is1_fmul a b :
  is1 a = true -> is1 b = true -> is1 (fmul a b) = true.
Proof.
  unfold is1. destruct a as [x| |], b as [y| |]; simpl; try done.
  rewrite !Qeq_bool_iff. intros -> ->. reflexivity.
Qed.

Lemma tri_cases a :
  tri a = true -> is0 a = false -> isnan a = false -> is1 a = true.
Proof.
  unfold tri. intros H H0 Hn. rewrite H0, Hn, orb_false_r in H. exact H.
Qed.

Lemma is0_sym a : feqb (Fin 0) a = is0 a.
Proof. apply feqb_sym. Qed.

(** ** Sums that meet a missing value *)

Lemma foldl_fadd_NaN xs : foldl fadd NaN xs = NaN.
Proof. induction xs as [|x xs IH]; simpl; [done|]. exact IH. Qed.

Lemma np_sum_NaN xs : existsb isnan xs = true -> np_sum xs = NaN.
Proof.
  unfold np_sum. generalize (Fin 0). induction xs as [|x xs IH]; intros acc; simpl; [done|].
  destruct (isnan x) eqn:Hx; simpl.
  - intros _. destruct x; try done. destruct acc; apply foldl_fadd_NaN.
  - apply IH.
Qed.

Lemma isnan_zip_fmul xs ys :
  length xs = length ys ->
  existsb isnan xs || existsb isnan ys = true ->
  existsb isnan (zip_with fmul xs ys) = true.
Proof.
  revert ys. induction xs as [|x xs IH]; intros [|y ys]; simpl; try done.
  intros Hlen H. injection Hlen as Hlen.
  destruct x as [p|s|], y as [q|t|]; simpl in *;
    try done; try (by rewrite orb_true_r); try (by destruct (Qzero _));
    try (by apply IH).
  all: destruct (Qzero _); simpl; try done; by apply IH.
Qed.

Lemma fsub_NaN_r a : fsub a NaN = NaN.
Proof. by destruct a. Qed.

(** ** The reducer in closed form *)

Lemma observed_ident l j :
  ident l = true -> ident j = true -> negb (isnan (fadd l j)) = observed (l, j).
Proof. by destruct l, j. Qed.

Lemma compress_kept link jacc :
  length link = length jacc ->
  Forall (fun x => ident x = true) link -> Forall (fun x => ident x = true) jacc ->
  let mask := zip_with (fun l j => negb (isnan (fadd l j))) link jacc in
  length mask = length link /\
  compress link mask = (kept link jacc).*1 /\
  compress jacc mask = (kept link jacc).*2.
Proof.
  intros Hlen Hl. revert jacc Hlen.
  induction Hl as [|l link Hl Hlink IH]; intros [|j jacc] Hlen Hj; simpl in *; try done.
  injection Hlen as Hlen. inversion Hj as [|? ? Hj1 Hj2]; subst.
  destruct (IH jacc Hlen Hj2) as (Hm & H1 & H2).
  unfold kept in *. simpl. rewrite observed_ident by done.
  destruct (observed (l, j)); simpl; repeat split;
    first [assumption | f_equal; assumption].
Qed.

Lemma zip_with_fst_snd {A B C} (f : A -> B -> C) (ps : list (A * B)) :
  zip_with f ps.*1 ps.*2 = (fun p => f p.1 p.2) <$> ps.
Proof. induction ps as [|p ps IH]; simpl; [done|]. f_equal. exact IH. Qed.

Lemma elementwise_Some {A B C} (f : A -> B -> C) (xs : list A) (ys : list B) :
  length xs = length ys -> elementwise f xs ys = Some (zip_with f xs ys).
Proof. intros H. unfold elementwise. by rewrite decide_True. Qed.

Lemma mask_index_Some {A} (xs : list A) (mask : list bool) :
  length xs = length mask -> mask_index xs mask = Some (compress xs mask).
Proof. intros H. unfold mask_index. by rewrite decide_True. Qed.

Lemma calc_ratios_kept link jacc :
  length link = length jacc ->
  Forall (fun x => ident x = true) link -> Forall (fun x => ident x = true) jacc ->
  calc_ratios link jacc = Some (ratios_over (kept link jacc)).
Proof.
  intros Hlen Hl Hj.
  destruct (compress_kept link jacc Hlen Hl Hj) as (Hm & H1 & H2).
  unfold calc_ratios, not_nan_mask.
  rewrite elementwise_Some by done. bind_some.
  rewrite (mask_index_Some link) by congruence. bind_some.
  rewrite (mask_index_Some jacc) by congruence. bind_some.
  rewrite H1, H2.
  rewrite elementwise_Some by (by rewrite !length_fmap). bind_some.
  unfold ratios_over. by rewrite zip_with_fst_snd, length_fmap.
Qed.

Lemma tri_ident x : tri x = true -> ident x = true.
Proof. by destruct x. Qed.

(** ** Sums of indicators are counts *)

Lemma bit_is0 a : bit a = true -> is0 a = negb (is1 a).
Proof.
  unfold bit, is0, is1. destruct a as [v| |]; simpl; try done.
  destruct (Qeq_bool v 0) eqn:H0, (Qeq_bool v 1) eqn:H1; try done.
  apply Qeq_bool_eq in H0, H1. rewrite H0 in H1. discriminate H1.
Qed.

Lemma is1_fmul_bits a b :
  bit a = true -> bit b = true -> is1 (fmul a b) = is1 a && is1 b.
Proof.
  intros Ha Hb. pose proof (bit_is0 a Ha) as Hza. pose proof (bit_is0 b Hb) as Hzb.
  destruct (is1 a) eqn:H1a, (is1 b) eqn:H1b; simpl in *.
  - by apply is1_fmul.
  - unfold is0, is1 in *. destruct a as [x| |], b as [y| |]; simpl in *; try done.
    apply Qeq_bool_eq in Hzb. apply not_true_is_false. intros H.
    apply Qeq_bool_eq in H. rewrite Hzb, Qmult_0_r in H. discriminate H.
  - unfold is0, is1 in *. destruct a as [x| |], b as [y| |]; simpl in *; try done.
    apply Qeq_bool_eq in Hza. apply not_true_is_false. intros H.
    apply Qeq_bool_eq in H. rewrite Hza, Qmult_0_l in H. discriminate H.
  - unfold is0, is1 in *. destruct a as [x| |], b as [y| |]; simpl in *; try done.
    apply Qeq_bool_eq in Hza. apply not_true_is_false. intros H.
    apply Qeq_bool_eq in H. rewrite Hza, Qmult_0_l in H. discriminate H.
Qed.

Lemma bit_fmul a b : bit a = true -> bit b = true -> bit (fmul a b) = true.
Proof.
  intros Ha Hb. unfold bit. rewrite is1_fmul_bits by done.
  destruct (is1 a) eqn:H1a, (is1 b) eqn:H1b; simpl; try by rewrite orb_true_r.
  all: rewrite orb_false_r.
  all: pose proof (bit_is0 a Ha) as Hza; pose proof (bit_is0 b Hb) as Hzb;
       rewrite ?H1a, ?H1b in *; simpl in *.
  all: unfold is0 in *; destruct a as [x| |], b as [y| |]; simpl in *; try done.
  all: apply Qeq_bool_iff.
  - apply Qeq_bool_eq in Hzb. by rewrite Hzb, Qmult_0_r.
  - apply Qeq_bool_eq in Hza. by rewrite Hza, Qmult_0_l.
  - apply Qeq_bool_eq in Hza. by rewrite Hza, Qmult_0_l.
Qed.

Lemma count_cons {A} (p : A -> bool) x l :
  count p (x :: l) = if p x then S (count p l) else count p l.
Proof. unfold count. simpl. by destruct (p x). Qed.

Lemma np_sum_bits {A} (g : A -> npfloat) (l : list A) :
  Forall (fun p => bit (g p) = true) l ->
  exists q, np_sum (g <$> l) = Fin q /\
            (q == inject_Z (Z.of_nat (count (fun p => is1 (g p)) l)))%Q.
Proof.
  intros H. unfold np_sum.
  assert (Hgen : forall acc, exists q, foldl fadd (Fin acc) (g <$> l) = Fin q /\
            (q == acc + inject_Z (Z.of_nat (count (fun p => is1 (g p)) l)))%Q).
  { induction H as [|x l Hx Hl IH]; intros acc.
    - exists acc. split; [done|]. unfold count. simpl. by rewrite Qplus_0_r.
    - rewrite count_cons. pose proof (bit_is0 _ Hx) as Hz.
      unfold bit, is0, is1 in *. simpl.
      destruct (g x) as [v| |] eqn:Hg; simpl in *; try done.
      destruct (IH (acc + v)%Q) as (q & Hq & Hqq). exists q. split; [done|].
      rewrite Hqq. destruct (Qeq_bool v 1) eqn:H1; simpl in Hz.
      + apply Qeq_bool_eq in H1. rewrite H1, Nat2Z.inj_succ.
        unfold Z.succ. rewrite inject_Z_plus. ring.
      + apply Qeq_bool_eq in Hz. rewrite Hz. ring. }
  destruct (Hgen 0%Q) as (q & Hq & Hqq). exists q. split; [done|].
  by rewrite Hqq, Qplus_0_l.
Qed.

Lemma count_relations (ps : list (npfloat * npfloat)) :
  Forall (fun p => bit p.1 = true /\ bit p.2 = true) ps ->
  count (fun p => is1 (fmul p.1 p.2)) ps <= count (fun p => is1 p.1) ps /\
  count (fun p => is1 (fmul p.1 p.2)) ps <= count (fun p => is1 p.2) ps /\
  count (fun p => is1 p.2) ps + count (fun p => is1 p.1) ps
    <= length ps + count (fun p => is1 (fmul p.1 p.2)) ps /\
  count (fun p => is1 p.1) ps + count (fun p => is0 p.1) ps = length ps.
Proof.
  induction 1 as [|[a b] ps [Ha Hb] Hps IH]; [done|].
  rewrite !count_cons. simpl in *.
  rewrite is1_fmul_bits, (bit_is0 a) by done.
  destruct (is1 a), (is1 b); simpl; lia.
Qed.

Lemma kept_bits link jacc :
  Forall (fun x => tri x = true) link -> Forall (fun x => tri x = true) jacc ->
  Forall (fun p => bit p.1 = true /\ bit p.2 = true) (kept link jacc).
Proof.
  intros Hl. revert jacc. unfold kept.
  induction Hl as [|l link Hl Hlink IH]; intros [|j jacc] Hj; simpl; try done.
  inversion Hj as [|? ? Hj1 Hj2]; subst.
  destruct (observed (l, j)) eqn:Ho; [|by apply IH].
  constructor; [|by apply IH]. unfold observed, tri, bit in *. simpl in *.
  destruct (isnan l), (isnan j); try done.
  by rewrite orb_false_r in Hl, Hj1.
Qed.

(** ** Quotients of counts *)

Lemma fdiv_counts (x y : Q) (X Y : nat) :
  (x == inject_Z (Z.of_nat X))%Q -> (y == inject_Z (Z.of_nat Y))%Q -> X <= Y ->
  (Y = 0 -> fdiv (Fin x) (Fin y) = NaN) /\
  (Y <> 0 -> exists q, fdiv (Fin x) (Fin y) = Fin q /\ (0 <= q <= 1)%Q).
Proof.
  intros Hx Hy Hle. simpl. split.
  - intros ->. assert (X = 0) as -> by lia. simpl in *.
    by rewrite (proj2 (Qzero_spec y) Hy), (proj2 (Qzero_spec x) Hx).
  - intros HY. assert (Hpos : (0 < y)%Q).
    { rewrite Hy. change 0%Q with (inject_Z 0). rewrite <- Zlt_Qlt. lia. }
    destruct (Qzero y) eqn:Hzy.
    { apply Qzero_spec in Hzy. rewrite Hzy in Hpos. by apply Qlt_irrefl in Hpos. }
    eexists. split; [done|]. split.
    + apply Qle_shift_div_l; [done|]. rewrite Qmult_0_l, Hx.
      change 0%Q with (inject_Z 0). rewrite <- Zle_Qle. lia.
    + apply Qle_shift_div_r; [done|]. rewrite Qmult_1_l, Hx, Hy.
      rewrite <- Zle_Qle. lia.
Qed.

Lemma inject_Z_sub_nat (x y : Q) (X Y : nat) :
  (x == inject_Z (Z.of_nat X))%Q -> (y == inject_Z (Z.of_nat Y))%Q -> Y <= X ->
  (x - y == inject_Z (Z.of_nat (X - Y)))%Q.
Proof.
  intros Hx Hy Hle. rewrite Nat2Z.inj_sub by done. unfold Z.sub, Qminus.
  by rewrite inject_Z_plus, inject_Z_opp, Hx, Hy.
Qed.

(** Both ratios of [calc_ratios] on 0/1/missing pair vectors: NaN on an
    empty denominator, a rational of the unit interval otherwise. *)
Lemma calc_ratios_counts (link_pairs jacc_pairs : list npfloat) :
  length link_pairs = length jacc_pairs ->
  Forall (fun x => tri x = true) link_pairs ->
  Forall (fun x => tri x = true) jacc_pairs ->
  exists jl jnl, calc_ratios link_pairs jacc_pairs = Some (jl, jnl) /\
    (n_linked link_pairs jacc_pairs = 0 -> jl = NaN) /\
    (n_linked link_pairs jacc_pairs <> 0 -> exists q, jl = Fin q /\ (0 <= q <= 1)%Q) /\
    (n_not_linked link_pairs jacc_pairs = 0 -> jnl = NaN) /\
    (n_not_linked link_pairs jacc_pairs <> 0 -> exists q, jnl = Fin q /\ (0 <= q <= 1)%Q).
Proof.
  intros Hlen Hl Hj.
  rewrite calc_ratios_kept by (done || (eapply Forall_impl; [eassumption|]; apply tri_ident)).
  unfold n_linked, n_not_linked, ratios_over.
  pose proof (kept_bits link_pairs jacc_pairs Hl Hj) as Hbits.
  set (ps := kept link_pairs jacc_pairs) in *.
  destruct (count_relations ps Hbits) as (Hc1 & Hc2 & Hc3 & Hc4).
  destruct (np_sum_bits fst ps) as (ql & -> & Hql).
  { eapply Forall_impl; [exact Hbits|]. by intros p [? ?]. }
  destruct (np_sum_bits snd ps) as (qj & -> & Hqj).
  { eapply Forall_impl; [exact Hbits|]. by intros p [? ?]. }
  destruct (np_sum_bits (fun p => fmul p.1 p.2) ps) as (qjl & -> & Hqjl).
  { eapply Forall_impl; [exact Hbits|]. intros p [? ?]. by apply bit_fmul. }
  simpl in Hql, Hqj, Hqjl.
  set (cL := count (fun p => is1 p.1) ps) in *.
  set (cJ := count (fun p => is1 p.2) ps) in *.
  set (cJL := count (fun p => is1 (fmul p.1 p.2)) ps) in *.
  set (cN := count (fun p => is0 p.1) ps) in *.
  do 2 eexists. split; [reflexivity|].
  destruct (fdiv_counts qjl ql cJL cL Hqjl Hql Hc1) as [Hjl0 Hjl1].
  assert (Hnum : (qj - qjl == inject_Z (Z.of_nat (cJ - cJL)))%Q)
    by (by apply inject_Z_sub_nat).
  assert (Hden : (inject_Z (Z.of_nat (length ps)) - ql == inject_Z (Z.of_nat cN))%Q).
  { rewrite (inject_Z_sub_nat _ ql (length ps) cL); [|reflexivity|done|lia].
    by replace (length ps - cL) with cN by lia. }
  destruct (fdiv_counts _ _ (cJ - cJL) cN Hnum Hden) as [Hjnl0 Hjnl1]; [lia|].
  repeat split; done.
Qed.

(** * The tests of the repository, replayed on the embedding *)

(** [test_jaccard_nan]: the pair vectors the test expects. *)
Example test_jaccard_nan_link_pairs :
  take_inds (link_table in_col_nan) (tril_indices 8 (-1))
  = Some [z 0;
          z 0; z 1;
          z 0; z 0; z 0;
          z 0; z 0; z 0; z 0;
          NaN; NaN; NaN; NaN; NaN;
          z 0; z 0; z 0; z 0; z 1; NaN;
          z 0; z 0; z 0; z 0; z 0; NaN; z 0].
Proof. vm_compute. reflexivity. Qed.

Example test_jaccard_nan_jacc_pairs :
  take_inds (jaccard_table feature_nan) (tril_indices 8 (-1))
  = Some [z 0;
          z 0; NaN;
          z 0; z 0; z 0;
          z 0; NaN; z 1; z 0;
          z 0; NaN; NaN; z 0; NaN;
          z 0; NaN; z 1; z 0; z 1; NaN;
          z 0; z 0; z 0; z 0; z 0; z 0; z 0].
Proof. vm_compute. reflexivity. Qed.

(** [test_jaccard]: ratios 3/4 and 3/24. *)
Example test_jaccard_ratios :
  pipeline in_col_1 feature_1 = Some (Fin (3 # 4), Fin (3 # 24)).
Proof. vm_compute. reflexivity. Qed.

(** [test_jaccard2]: ratios 1/3 and 2/7. *)
Example test_jaccard2_ratios :
  pipeline in_col_2 feature_2 = Some (Fin (1 # 3), Fin (2 # 7)).
Proof. vm_compute. reflexivity. Qed.

(** * Properties of the specification *)

(** C1: for a feature vector with entries in {0, 1, missing}, the entry
    (i, j) of [jaccard_table] is 0 when [feature[i]] or [feature[j]] is 0
    (also when the other one is missing), otherwise it is missing when one of
    the two is missing, otherwise both are 1 and the entry is 1. *)
Theorem jaccard_table_rule (feature : list npfloat) (i j : nat) (a b : npfloat) :
  feature !! i = Some a -> feature !! j = Some b ->
  tri a = true -> tri b = true ->
  exists r, get (jaccard_table feature) i j = Some r /\
    (is0 a || is0 b = true -> r = Fin 0) /\
    (is0 a || is0 b = false -> isnan a || isnan b = true -> r = NaN) /\
    (is0 a || is0 b = false -> isnan a || isnan b = false ->
       is1 a && is1 b = true /\ is1 r = true).
Proof.
  intros Hi Hj Ha Hb. exists (jaccard_entry a b).
  rewrite jaccard_table_broadcast, get_broadcast, Hi, Hj. split; [done|].
  unfold jaccard_entry. destruct (is0 a || is0 b) eqn:Hz.
  - repeat split; done.
  - split; [done|]. apply orb_false_elim in Hz as [Hza Hzb].
    split; intros _ Hn.
    + destruct a, b; done.
    + apply orb_false_elim in Hn as [Hna Hnb].
      pose proof (tri_cases a Ha Hza Hna) as H1a.
      pose proof (tri_cases b Hb Hzb Hnb) as H1b.
      rewrite H1a, H1b. split; [done|]. by apply is1_fmul.
Qed.

Lemma jaccard_table_rule_witness :
  exists r, get (jaccard_table feature_nan) 1 3 = Some r /\
    (is0 NaN || is0 (z 0) = true -> r = Fin 0) /\
    (is0 NaN || is0 (z 0) = false -> isnan NaN || isnan (z 0) = true -> r = NaN) /\
    (is0 NaN || is0 (z 0) = false -> isnan NaN || isnan (z 0) = false ->
       is1 NaN && is1 (z 0) = true /\ is1 r = true).
Proof. apply (jaccard_table_rule feature_nan 1 3 NaN (z 0)); reflexivity. Defined.

(** The rule of [link_table] on an array that is float already: for two
    values that are finite or missing the entry is missing when one of
    them is missing, else 1 when they are equal and 0 when they are not. *)
Lemma link_table_rule (ids : list npfloat) (i j : nat) (a b : npfloat) :
  ids !! i = Some a -> ids !! j = Some b ->
  ident a = true -> ident b = true ->
  get (link_table ids) i j
    = Some (if isnan a || isnan b then NaN else if feqb a b then Fin 1 else Fin 0)
  /\ get (link_table ids) i i = Some (if isnan a then NaN else Fin 1).
Proof.
  intros Hi Hj Ha Hb.
  rewrite link_table_broadcast, !get_broadcast, Hi, Hj. simpl.
  unfold link_entry. rewrite !isnan_fadd_ident by done. split; [done|].
  destruct a as [q| |]; try done. by rewrite feqb_Fin_refl.
Qed.

Lemma float_of_ident (x : pynumber) (a : npfloat) :
  number_ok x = true -> float_of x = Some a ->
  ident a = true /\ isnan a = missing x.
Proof.
  destruct x as [n|[q|s|]]; simpl; try done.
  - unfold float_of_int. destruct (2 ^ 1024 <=? round53 (Z.abs n))%Z; [done|].
    by intros _ [= <-].
  - by intros _ [= <-].
  - by intros _ [= <-].
Qed.

(** The test's identifiers convert to the float vector used above. *)
Example np_array_in_col_nan : np_array in_col_nan_py = Some in_col_nan.
Proof. reflexivity. Qed.

(** The claim C2 as the specification states it fails on the integers 2^53
    and 2^53 + 1: they are unequal, the conversion to float rounds both to
    2^53, and [link_table] links them. *)
Lemma link_rule_as_claimed_counterexample :
  ~ link_rule_as_claimed [NInt (2 ^ 53); NInt (2 ^ 53 + 1)].
Proof.
  intros H. destruct (H 0 1 _ _ eq_refl eq_refl) as (M & HM & Hget).
  vm_compute in HM. injection HM as <-. vm_compute in Hget. discriminate Hget.
Qed.

(** C2 (amended): for identifiers that are Python ints, finite floats or
    missing, and that [np.array] converts without overflow, the entry
    (i, j) of [link_table] is missing when [identifier[i]] or
    [identifier[j]] is missing, else 1 when the two identifiers are equal
    after their conversion to float and 0 when they are not; the diagonal
    entry (i, i) is 1 for a present identifier and missing for a missing
    one. *)
Theorem link_table_rule_after_conversion
    (ids : list pynumber) (arr : list npfloat) (i j : nat) (x y : pynumber) :
  Forall (fun v => number_ok v = true) ids ->
  np_array ids = Some arr ->
  ids !! i = Some x -> ids !! j = Some y ->
  exists a b,
    float_of x = Some a /\ float_of y = Some b /\
    link_table_of_sequence ids = Some (link_table arr) /\
    get (link_table arr) i j
      = Some (if missing x || missing y then NaN
              else if feqb a b then Fin 1 else Fin 0) /\
    get (link_table arr) i i = Some (if missing x then NaN else Fin 1).
Proof.
  intros Hok Hnp Hi Hj. rewrite Forall_forall in Hok.
  pose proof (proj1 (mapM_Some _ _ _) Hnp) as Hall.
  destruct (Forall2_lookup_l _ _ _ _ _ Hall Hi) as (a & Hai & Hxa).
  destruct (Forall2_lookup_l _ _ _ _ _ Hall Hj) as (b & Hbj & Hyb).
  destruct (float_of_ident x a) as [Ha Hma];
    [apply Hok; by eapply list_elem_of_lookup_2 | done |].
  destruct (float_of_ident y b) as [Hb Hmb];
    [apply Hok; by eapply list_elem_of_lookup_2 | done |].
  exists a, b. split; [done|]. split; [done|]. split.
  - unfold link_table_of_sequence. by rewrite Hnp.
  - rewrite <- Hma, <- Hmb. by apply link_table_rule.
Qed.

Lemma link_table_rule_after_conversion_witness :
  exists a b,
    float_of (NInt (2 ^ 53)) = Some a /\ float_of (NInt (2 ^ 53 + 1)) = Some b /\
    link_table_of_sequence [NInt (2 ^ 53); NInt (2 ^ 53 + 1); NFloat NaN]
      = Some (link_table [z (2 ^ 53); z (2 ^ 53); NaN]) /\
    get (link_table [z (2 ^ 53); z (2 ^ 53); NaN]) 0 1
      = Some (if missing (NInt (2 ^ 53)) || missing (NInt (2 ^ 53 + 1)) then NaN
              else if feqb a b then Fin 1 else Fin 0) /\
    get (link_table [z (2 ^ 53); z (2 ^ 53); NaN]) 0 0
      = Some (if missing (NInt (2 ^ 53)) then NaN else Fin 1).
Proof.
  apply (link_table_rule_after_conversion
           [NInt (2 ^ 53); NInt (2 ^ 53 + 1); NFloat NaN]
           [z (2 ^ 53); z (2 ^ 53); NaN] 0 1 (NInt (2 ^ 53)) (NInt (2 ^ 53 + 1)));
    [repeat constructor | vm_compute; reflexivity | reflexivity | reflexivity].
Defined.

(** C3: on pair vectors of one length whose entries are finite or missing
    (0, 1 or missing in particular), [calc_ratios] excludes position k
    exactly when [link_pairs[k]] or [jacc_pairs[k]] is missing; the position
    is dropped from both vectors, and the sums, the pair total and the two
    ratios are taken over the fully observed positions only. *)
Theorem calc_ratios_joint_exclusion (link_pairs jacc_pairs : list npfloat) :
  length link_pairs = length jacc_pairs ->
  Forall (fun x => ident x = true) link_pairs ->
  Forall (fun x => ident x = true) jacc_pairs ->
  exists not_nan,
    not_nan_mask link_pairs jacc_pairs = Some not_nan /\
    (forall k l j, link_pairs !! k = Some l -> jacc_pairs !! k = Some j ->
       not_nan !! k = Some (negb (isnan l || isnan j))) /\
    mask_index link_pairs not_nan = Some (kept link_pairs jacc_pairs).*1 /\
    mask_index jacc_pairs not_nan = Some (kept link_pairs jacc_pairs).*2 /\
    calc_ratios link_pairs jacc_pairs = Some (ratios_over (kept link_pairs jacc_pairs)).
Proof.
  intros Hlen Hl Hj.
  destruct (compress_kept link_pairs jacc_pairs Hlen Hl Hj) as (Hm & H1 & H2).
  eexists. split; [by apply elementwise_Some|]. split; [|split; [|split]].
  - intros k l j Hkl Hkj. rewrite lookup_zip_with, Hkl, Hkj. simpl. f_equal.
    rewrite Forall_forall in Hl. rewrite Forall_forall in Hj.
    rewrite isnan_fadd_ident; [done| |].
    + apply Hl. by eapply list_elem_of_lookup_2.
    + apply Hj. by eapply list_elem_of_lookup_2.
  - rewrite mask_index_Some by congruence. by rewrite H1.
  - rewrite mask_index_Some by congruence. by rewrite H2.
  - by apply calc_ratios_kept.
Qed.

Lemma calc_ratios_joint_exclusion_witness :
  exists not_nan,
    not_nan_mask [z 1; NaN; z 0; z 1] [z 1; z 1; NaN; z 0] = Some not_nan /\
    (forall k l j, [z 1; NaN; z 0; z 1] !! k = Some l -> [z 1; z 1; NaN; z 0] !! k = Some j ->
       not_nan !! k = Some (negb (isnan l || isnan j))) /\
    mask_index [z 1; NaN; z 0; z 1] not_nan
      = Some (kept [z 1; NaN; z 0; z 1] [z 1; z 1; NaN; z 0]).*1 /\
    mask_index [z 1; z 1; NaN; z 0] not_nan
      = Some (kept [z 1; NaN; z 0; z 1] [z 1; z 1; NaN; z 0]).*2 /\
    calc_ratios [z 1; NaN; z 0; z 1] [z 1; z 1; NaN; z 0]
      = Some (ratios_over (kept [z 1; NaN; z 0; z 1] [z 1; z 1; NaN; z 0])).
Proof.
  apply (calc_ratios_joint_exclusion [z 1; NaN; z 0; z 1] [z 1; z 1; NaN; z 0]);
    [reflexivity | repeat constructor | repeat constructor].
Defined.

(** C4: on identifiers [0,1,1,2,3,missing,3,4] and feature
    [0,missing,1,0,1,missing,1,0] the pipeline (both tables, the strict lower
    triangle of each, [calc_ratios]) returns [jl_ratio] 1 and [jnl_ratio]
    2/17. *)
Theorem pipeline_missing_scenario :
  pipeline in_col_nan feature_nan = Some (Fin 1, Fin (2 # 17)).
Proof. vm_compute. reflexivity. Qed.

(** C5: for identifiers that are finite or missing and features in
    {0, 1, missing}, the nested loops of [equal_to] and [both_1] return, and
    what they return equals the output of [link_table] and of
    [jaccard_table] element for element under the tests' [nan_eq], which
    counts missing equal to missing. *)
Theorem builders_agree_with_references (ids feature : list npfloat) :
  Forall (fun x => ident x = true) ids ->
  Forall (fun x => tri x = true) feature ->
  (exists R, equal_to ids = Some R /\ nan_eq (link_table ids) R = true) /\
  (exists R, both_1 feature = Some R /\ nan_eq (jaccard_table feature) R = true).
Proof.
  intros Hids Hfeat. rewrite Forall_forall in Hids. rewrite Forall_forall in Hfeat. split.
  - eexists. split; [apply equal_to_broadcast|].
    rewrite link_table_broadcast. apply nan_eq_broadcast. intros a b Ha Hb.
    unfold link_entry, equal_to_entry.
    rewrite isnan_fadd_ident by auto. apply feqb_nan_refl.
  - eexists. split; [apply both_1_broadcast|].
    rewrite jaccard_table_broadcast. apply nan_eq_broadcast. intros a b Ha Hb.
    unfold jaccard_entry, both_1_entry. rewrite (is0_sym a), (is0_sym b).
    destruct (is0 a || is0 b) eqn:Hz; [done|].
    apply orb_false_elim in Hz as [Hza Hzb].
    pose proof (Hfeat a Ha) as Ta. pose proof (Hfeat b Hb) as Tb.
    destruct (isnan (fadd a b)) eqn:Hn.
    + destruct a as [x|s|], b as [y|t|]; done.
    + assert (Hna : isnan a = false) by (by destruct a, b).
      assert (Hnb : isnan b = false) by (by destruct a, b).
      pose proof (is1_fmul a b (tri_cases a Ta Hza Hna) (tri_cases b Tb Hzb Hnb)) as H1.
      unfold is1 in H1. unfold feqb_nan. by rewrite H1.
Qed.

Lemma builders_agree_with_references_witness :
  (exists R, equal_to in_col_nan = Some R /\ nan_eq (link_table in_col_nan) R = true) /\
  (exists R, both_1 feature_nan = Some R /\ nan_eq (jaccard_table feature_nan) R = true).
Proof.
  apply (builders_agree_with_references in_col_nan feature_nan);
    repeat constructor.
Defined.

(** C6: on 0/1/missing pair vectors of one length [calc_ratios] returns (it
    raises nothing); with no linked pair left after the exclusion
    [jl_ratio] is NaN, with no non-linked pair left [jnl_ratio] is NaN. *)
Theorem calc_ratios_degenerate (link_pairs jacc_pairs : list npfloat) :
  length link_pairs = length jacc_pairs ->
  Forall (fun x => tri x = true) link_pairs ->
  Forall (fun x => tri x = true) jacc_pairs ->
  exists jl jnl, calc_ratios link_pairs jacc_pairs = Some (jl, jnl) /\
    (n_linked link_pairs jacc_pairs = 0 -> jl = NaN) /\
    (n_not_linked link_pairs jacc_pairs = 0 -> jnl = NaN).
Proof.
  intros Hlen Hl Hj.
  destruct (calc_ratios_counts link_pairs jacc_pairs Hlen Hl Hj)
    as (jl & jnl & Hr & H1 & _ & H2 & _).
  by exists jl, jnl.
Qed.

Lemma calc_ratios_degenerate_witness :
  exists jl jnl, calc_ratios [z 0; NaN; z 0] [z 1; z 1; z 0] = Some (jl, jnl) /\
    (n_linked [z 0; NaN; z 0] [z 1; z 1; z 0] = 0 -> jl = NaN) /\
    (n_not_linked [z 0; NaN; z 0] [z 1; z 1; z 0] = 0 -> jnl = NaN).
Proof.
  apply (calc_ratios_degenerate [z 0; NaN; z 0] [z 1; z 1; z 0]);
    [reflexivity | repeat constructor | repeat constructor].
Defined.

(** C7: on 0/1/missing pair vectors of one length, each ratio returned by
    [calc_ratios] whose denominator after the exclusion is not zero is a
    number of the closed interval [0, 1]. *)
Theorem calc_ratios_bounds (link_pairs jacc_pairs : list npfloat) :
  length link_pairs = length jacc_pairs ->
  Forall (fun x => tri x = true) link_pairs ->
  Forall (fun x => tri x = true) jacc_pairs ->
  exists jl jnl, calc_ratios link_pairs jacc_pairs = Some (jl, jnl) /\
    (n_linked link_pairs jacc_pairs <> 0 -> exists q, jl = Fin q /\ (0 <= q <= 1)%Q) /\
    (n_not_linked link_pairs jacc_pairs <> 0 -> exists q, jnl = Fin q /\ (0 <= q <= 1)%Q).
Proof.
  intros Hlen Hl Hj.
  destruct (calc_ratios_counts link_pairs jacc_pairs Hlen Hl Hj)
    as (jl & jnl & Hr & _ & H1 & _ & H2).
  by exists jl, jnl.
Qed.

Lemma calc_ratios_bounds_witness :
  exists jl jnl, calc_ratios [z 1; NaN; z 0; z 1] [z 1; z 1; z 1; z 0] = Some (jl, jnl) /\
    (n_linked [z 1; NaN; z 0; z 1] [z 1; z 1; z 1; z 0] <> 0 ->
       exists q, jl = Fin q /\ (0 <= q <= 1)%Q) /\
    (n_not_linked [z 1; NaN; z 0; z 1] [z 1; z 1; z 1; z 0] <> 0 ->
       exists q, jnl = Fin q /\ (0 <= q <= 1)%Q).
Proof.
  apply (calc_ratios_bounds [z 1; NaN; z 0; z 1] [z 1; z 1; z 1; z 0]);
    [reflexivity | repeat constructor | repeat constructor].
Defined.

(** C8: the matrices returned by [link_table] and [jaccard_table] equal
    their own transposes, missing entries included. *)
Theorem tables_symmetric (ids feature : list npfloat) :
  transpose (link_table ids) = link_table ids /\
  transpose (jaccard_table feature) = jaccard_table feature.
Proof.
  rewrite link_table_broadcast, jaccard_table_broadcast, !transpose_broadcast.
  split; unfold broadcast; apply list_fmap_ext; intros _ a _;
    apply list_fmap_ext; intros _ b _.
  - apply link_entry_sym.
  - apply jaccard_entry_sym.
Qed.

(** C9: in the earlier version [link_table] returns a matrix in which every
    entry in the row or the column of a missing identifier is 0, never
    missing. *)
Theorem earlier_link_table_missing_is_zero (ids : list npfloat) (i j : nat) (a b : npfloat) :
  ids !! i = Some a -> ids !! j = Some b ->
  isnan a || isnan b = true ->
  exists M, Earlier.link_table ids = Some M /\ get M i j = Some (Fin 0).
Proof.
  intros Hi Hj Hn. eexists. split; [apply earlier_link_table_broadcast|].
  rewrite get_broadcast, Hi, Hj. simpl. unfold earlier_link_entry.
  destruct (isnan b) eqn:Hb; [done|]. rewrite orb_false_r in Hn.
  by destruct a.
Qed.

Lemma earlier_link_table_missing_is_zero_witness :
  exists M, Earlier.link_table in_col_nan = Some M /\ get M 5 4 = Some (Fin 0).
Proof.
  apply (earlier_link_table_missing_is_zero in_col_nan 5 4 NaN (z 3)); reflexivity.
Defined.

(** C10: the earlier [calc_ratios] excludes nothing: on vectors of one
    length, a missing entry in [link_pairs] or in [jacc_pairs] makes both
    returned ratios NaN. *)
Theorem earlier_calc_ratios_missing (link_pairs jacc_pairs : list npfloat) :
  length link_pairs = length jacc_pairs ->
  existsb isnan link_pairs || existsb isnan jacc_pairs = true ->
  Earlier.calc_ratios link_pairs jacc_pairs = Some (NaN, NaN).
Proof.
  intros Hlen Hnan. unfold Earlier.calc_ratios, Earlier.dot, aligned.
  rewrite decide_True by done. simpl.
  rewrite (np_sum_NaN (zip_with fmul link_pairs jacc_pairs))
    by (by apply isnan_zip_fmul).
  by rewrite fsub_NaN_r.
Qed.

Lemma earlier_calc_ratios_missing_witness :
  Earlier.calc_ratios [z 1; z 0; z 0] [z 1; NaN; z 0] = Some (NaN, NaN).
Proof. apply (earlier_calc_ratios_missing [z 1; z 0; z 0] [z 1; NaN; z 0]); reflexivity. Defined.

(** * Further properties of the code *)

(** ** Shapes and entries of the tables *)

Lemma square_broadcast {A C} (f : A -> A -> C) (xs : list A) :
  square (length xs) (broadcast f xs xs).
Proof.
  split; [apply length_broadcast|]. unfold broadcast.
  apply Forall_fmap, Forall_forall. intros a _. simpl. by rewrite length_fmap.
Qed.

Lemma get_broadcast_Some {A C} (f : A -> A -> C) (xs : list A) i j r :
  get (broadcast f xs xs) i j = Some r ->
  exists a b, xs !! i = Some a /\ xs !! j = Some b /\ r = f a b.
Proof.
  rewrite get_broadcast. destruct (xs !! i) as [a|]; simpl; [|done].
  destruct (xs !! j) as [b|]; simpl; [|done].
  intros [= <-]. by exists a, b.
Qed.

Lemma equal_to_entry_sym a b : equal_to_entry a b = equal_to_entry b a.
Proof. unfold equal_to_entry. by rewrite orb_comm, feqb_sym. Qed.

Lemma both_1_entry_sym a b : both_1_entry a b = both_1_entry b a.
Proof. unfold both_1_entry. by rewrite orb_comm, fadd_comm. Qed.

Lemma broadcast_ext {A C} (f g : A -> A -> C) (xs : list A) :
  (forall a b, f a b = g a b) -> broadcast f xs xs = broadcast g xs xs.
Proof.
  intros H. unfold broadcast. apply list_fmap_ext. intros _ a _.
  apply list_fmap_ext. intros _ b _. apply H.
Qed.

Lemma jaccard_entry_tri a b :
  tri a = true -> tri b = true -> tri (jaccard_entry a b) = true.
Proof.
  intros Ha Hb. unfold jaccard_entry.
  destruct (is0 a || is0 b) eqn:Hz; [done|].
  apply orb_false_elim in Hz as [Hza Hzb].
  destruct (isnan a) eqn:Hna; [by destruct a|].
  destruct (isnan b) eqn:Hnb; [by destruct a, b|].
  unfold tri. rewrite (is1_fmul a b) by (by apply tri_cases).
  by rewrite orb_true_r.
Qed.


(** X2: whatever the identifiers (infinities included), every entry of
    [link_table] is 0, 1 or missing. *)
Theorem link_table_entries (ids : list npfloat) (i j : nat) (r : npfloat) :
  get (link_table ids) i j = Some r -> r = Fin 0 \/ r = Fin 1 \/ r = NaN.
Proof.
  rewrite link_table_broadcast. intros (a & b & _ & _ & ->)%get_broadcast_Some.
  unfold link_entry. destruct (isnan (fadd a b)); [by auto|].
  destruct (feqb a b); simpl; auto.
Qed.

Lemma link_table_entries_witness :
  Fin 1 = Fin 0 \/ Fin 1 = Fin 1 \/ Fin 1 = NaN.
Proof. apply (link_table_entries in_col_nan 6 4 (Fin 1)). reflexivity. Defined.

(** X3: on a feature vector of 0, 1 and missing values every entry of
    [jaccard_table] is again 0, 1 or missing. *)
Theorem jaccard_table_entries (feature : list npfloat) (i j : nat) (r : npfloat) :
  Forall (fun x => tri x = true) feature ->
  get (jaccard_table feature) i j = Some r -> tri r = true.
Proof.
  rewrite Forall_forall. intros Hf.
  rewrite jaccard_table_broadcast. intros (a & b & Ha & Hb & ->)%get_broadcast_Some.
  apply jaccard_entry_tri; apply Hf; by eapply list_elem_of_lookup_2.
Qed.

Lemma jaccard_table_entries_witness : tri NaN = true.
Proof.
  apply (jaccard_table_entries feature_nan 1 2 NaN); [repeat constructor | reflexivity].
Defined.

(** X4: for every identifier vector, a missing identifier makes its whole
    row and its whole column of [link_table] missing. *)
Theorem link_table_missing_row_column (ids : list npfloat) (i j : nat) (a b : npfloat) :
  ids !! i = Some a -> ids !! j = Some b ->
  isnan a || isnan b = true ->
  get (link_table ids) i j = Some NaN.
Proof.
  intros Hi Hj Hn. rewrite link_table_broadcast, get_broadcast, Hi, Hj. simpl.
  unfold link_entry. by destruct a, b.
Qed.

Lemma link_table_missing_row_column_witness :
  get (link_table [NaN; Inf false; z 2]) 0 1 = Some NaN.
Proof.
  apply (link_table_missing_row_column [NaN; Inf false; z 2] 0 1 NaN (Inf false));
    reflexivity.
Defined.

(** X5: for every vector, a value equal to 0 makes its whole row and its
    whole column of [jaccard_table] 0, whatever the other value is (missing,
    an infinity, any number). *)
Theorem jaccard_table_zero_row_column (col : list npfloat) (i j : nat) (a b : npfloat) :
  col !! i = Some a -> col !! j = Some b ->
  is0 a || is0 b = true ->
  get (jaccard_table col) i j = Some (Fin 0).
Proof.
  intros Hi Hj Hz. rewrite jaccard_table_broadcast, get_broadcast, Hi, Hj. simpl.
  unfold jaccard_entry. by rewrite Hz.
Qed.

Lemma jaccard_table_zero_row_column_witness :
  get (jaccard_table [z 0; Inf true; NaN]) 1 0 = Some (Fin 0).
Proof.
  apply (jaccard_table_zero_row_column [z 0; Inf true; NaN] 1 0 (Inf true) (z 0));
    reflexivity.
Defined.

(** X6: for every vector the nested loops of [equal_to] and of [both_1]
    return an array that equals its own transpose. *)
Theorem references_symmetric (col : list npfloat) :
  (exists R, equal_to col = Some R /\ transpose R = R) /\
  (exists R, both_1 col = Some R /\ transpose R = R).
Proof.
  rewrite equal_to_broadcast, both_1_broadcast.
  split; eexists; (split; [reflexivity|]); rewrite transpose_broadcast;
    apply broadcast_ext; intros a b.
  - apply equal_to_entry_sym.
  - apply both_1_entry_sym.
Qed.

(** ** The reducer: errors, edge cases and the two versions *)

Lemma aligned_Some {A B C} (f : A -> B -> C) (xs : list A) (ys : list B) :
  length xs = length ys -> aligned f xs ys = Some (zip_with f xs ys).
Proof. intros H. unfold aligned. by rewrite decide_True. Qed.

Lemma aligned_None {A B C} (f : A -> B -> C) (xs : list A) (ys : list B) :
  length xs <> length ys -> aligned f xs ys = None.
Proof. intros H. unfold aligned. by rewrite decide_False. Qed.

Lemma length_compress_same {A B} (xs : list A) (ys : list B) (mask : list bool) :
  length xs = length ys ->
  length (compress xs mask) = length (compress ys mask).
Proof.
  revert ys mask. induction xs as [|x xs IH]; intros [|y ys] [|m mask] Hlen;
    simpl in *; try done.
  injection Hlen as Hlen. destruct m; simpl; [f_equal|]; by apply IH.
Qed.

Lemma earlier_calc_ratios_over (ps : list (npfloat * npfloat)) :
  Earlier.calc_ratios ps.*1 ps.*2 = Some (ratios_over ps).
Proof.
  unfold Earlier.calc_ratios, Earlier.dot.
  rewrite aligned_Some by (by rewrite !length_fmap).
  rewrite zip_with_fst_snd, length_fmap. reflexivity.
Qed.

Lemma kept_Forall_fst (P : npfloat -> Prop) link jacc :
  Forall P link -> Forall P (kept link jacc).*1.
Proof.
  intros Hl. revert jacc. unfold kept.
  induction Hl as [|l link Hl Hlink IH]; intros [|j jacc]; simpl; try done.
  destruct (observed (l, j)); simpl; [constructor; [done|]|]; apply IH.
Qed.

Lemma kept_Forall_snd (P : npfloat -> Prop) link jacc :
  Forall P jacc -> Forall P (kept link jacc).*2.
Proof.
  intros Hj. revert link. unfold kept.
  induction Hj as [|j jacc Hj Hjacc IH]; intros [|l link]; simpl; try done.
  destruct (observed (l, j)); simpl; [constructor; [done|]|]; apply IH.
Qed.

Lemma kept_idempotent link jacc :
  kept (kept link jacc).*1 (kept link jacc).*2 = kept link jacc.
Proof.
  unfold kept at 1. rewrite zip_fst_snd. unfold kept.
  generalize (zip link jacc). intros ps.
  induction ps as [|p ps IH]; simpl; [done|].
  destruct (observed p) eqn:Hp; simpl; [|done]. rewrite Hp. f_equal. exact IH.
Qed.

Lemma kept_finite link jacc :
  length link = length jacc ->
  Forall (fun x => finite x = true) link -> Forall (fun x => finite x = true) jacc ->
  (kept link jacc).*1 = link /\ (kept link jacc).*2 = jacc.
Proof.
  intros Hlen Hl. revert jacc Hlen. unfold kept.
  induction Hl as [|l link Hl Hlink IH]; intros [|j jacc] Hlen Hj; simpl in *; try done.
  injection Hlen as Hlen. inversion Hj as [|? ? Hj1 Hj2]; subst.
  destruct (IH jacc Hlen Hj2) as [H1 H2].
  assert (Ho : observed (l, j) = true) by (by destruct l, j).
  rewrite Ho. simpl. split; f_equal; assumption.
Qed.

Lemma finite_ident x : finite x = true -> ident x = true.
Proof. by destruct x. Qed.

Lemma calc_ratios_mismatch (link_pairs jacc_pairs : list npfloat) :
  length link_pairs <> length jacc_pairs ->
  length link_pairs + length jacc_pairs <> 1 ->
  calc_ratios link_pairs jacc_pairs = None.
Proof.
  intros Hne H1. unfold calc_ratios, not_nan_mask, elementwise.
  rewrite decide_False by done.
  destruct link_pairs as [|x [|x2 link]], jacc_pairs as [|y [|y2 jacc]];
    simpl in Hne, H1; try lia; try reflexivity.
  bind_some. rewrite (mask_index_Some (x :: x2 :: link)) by (by rewrite length_fmap).
  bind_some. unfold mask_index.
  rewrite decide_False by (simpl; rewrite ?length_fmap; lia). reflexivity.
Qed.

(** X7: the later [calc_ratios] returns a pair of ratios exactly when the
    two vectors have one length or are an empty vector and a vector of
    length 1 (which numpy broadcasts to the empty one); on all other
    lengths it raises.  The earlier [calc_ratios] returns exactly when the
    two vectors have one length: [np.dot] does not broadcast. *)
Theorem calc_ratios_returns_iff (link_pairs jacc_pairs : list npfloat) :
  (is_Some (calc_ratios link_pairs jacc_pairs)
     <-> length link_pairs = length jacc_pairs
         \/ length link_pairs + length jacc_pairs = 1) /\
  (is_Some (Earlier.calc_ratios link_pairs jacc_pairs)
     <-> length link_pairs = length jacc_pairs).
Proof.
  split; (split; [intros [r Hr] | intros Hlen]).
  - destruct (decide (length link_pairs = length jacc_pairs)) as [|Hne]; [by left|].
    destruct (decide (length link_pairs + length jacc_pairs = 1)) as [|H1]; [by right|].
    by rewrite calc_ratios_mismatch in Hr.
  - destruct (decide (length link_pairs = length jacc_pairs)) as [Heq|Hne].
    + unfold calc_ratios, not_nan_mask.
      rewrite elementwise_Some by done. bind_some.
      rewrite (mask_index_Some link_pairs) by (by rewrite length_zip_with; lia). bind_some.
      rewrite (mask_index_Some jacc_pairs) by (by rewrite length_zip_with; lia). bind_some.
      rewrite elementwise_Some by (by apply length_compress_same). bind_some. by eexists.
    + destruct Hlen as [Heq|H1]; [done|].
      destruct link_pairs as [|x [|x2 link]], jacc_pairs as [|y [|y2 jacc]];
        simpl in Hne, H1; try lia; by eexists.
  - destruct (decide (length link_pairs = length jacc_pairs)) as [|Hne]; [done|].
    unfold Earlier.calc_ratios, Earlier.dot in Hr.
    by rewrite aligned_None in Hr.
  - unfold Earlier.calc_ratios, Earlier.dot.
    rewrite aligned_Some by done. by eexists.
Qed.

(** On an empty vector and a vector of length 1, in either order, the later
    [calc_ratios] returns NaN for both ratios. *)
Example calc_ratios_empty_and_one (x : npfloat) :
  calc_ratios [] [x] = Some (NaN, NaN) /\ calc_ratios [x] [] = Some (NaN, NaN).
Proof. split; reflexivity. Qed.

Lemma compress_unobserved link jacc :
  Forall2 (fun l j => isnan l || isnan j = true) link jacc ->
  let mask := zip_with (fun l j => negb (isnan (fadd l j))) link jacc in
  length mask = length link /\ compress link mask = [] /\ compress jacc mask = [].
Proof.
  induction 1 as [|l j link jacc Hlj Hrest IH]; simpl; [done|].
  destruct IH as (Hm & H1 & H2).
  assert (Hn : isnan (fadd l j) = true) by (by destruct l, j).
  rewrite Hn. simpl. repeat split; [by f_equal | done | done].
Qed.

(** X8: when every position has a missing value in one of the two vectors,
    and so on two empty vectors, [calc_ratios] raises nothing and returns
    NaN for both ratios. *)
Theorem calc_ratios_nothing_observed (link_pairs jacc_pairs : list npfloat) :
  Forall2 (fun l j => isnan l || isnan j = true) link_pairs jacc_pairs ->
  calc_ratios link_pairs jacc_pairs = Some (NaN, NaN).
Proof.
  intros H. pose proof (Forall2_length _ _ _ H) as Hlen.
  destruct (compress_unobserved link_pairs jacc_pairs H) as (Hm & H1 & H2).
  unfold calc_ratios, not_nan_mask.
  rewrite elementwise_Some by done. bind_some.
  rewrite (mask_index_Some link_pairs) by congruence. bind_some.
  rewrite (mask_index_Some jacc_pairs) by congruence. bind_some.
  rewrite H1, H2. reflexivity.
Qed.

Lemma calc_ratios_nothing_observed_witness :
  calc_ratios [NaN; z 1; NaN] [z 1; NaN; NaN] = Some (NaN, NaN).
Proof.
  apply (calc_ratios_nothing_observed [NaN; z 1; NaN] [z 1; NaN; NaN]).
  repeat constructor.
Defined.

(** X9: dropping the positions with a missing value beforehand changes
    nothing: on vectors of one length with finite or missing entries,
    [calc_ratios] returns on the fully observed pairs what it returns on
    the whole vectors. *)
Theorem calc_ratios_prefiltered (link_pairs jacc_pairs : list npfloat) :
  length link_pairs = length jacc_pairs ->
  Forall (fun x => ident x = true) link_pairs ->
  Forall (fun x => ident x = true) jacc_pairs ->
  calc_ratios (kept link_pairs jacc_pairs).*1 (kept link_pairs jacc_pairs).*2
  = calc_ratios link_pairs jacc_pairs.
Proof.
  intros Hlen Hl Hj.
  rewrite (calc_ratios_kept link_pairs jacc_pairs) by done.
  rewrite calc_ratios_kept.
  - by rewrite kept_idempotent.
  - by rewrite !length_fmap.
  - by apply kept_Forall_fst.
  - by apply kept_Forall_snd.
Qed.

Lemma calc_ratios_prefiltered_witness :
  calc_ratios (kept [z 1; NaN; z 0; z 1] [z 1; z 1; NaN; z 0]).*1
              (kept [z 1; NaN; z 0; z 1] [z 1; z 1; NaN; z 0]).*2
  = calc_ratios [z 1; NaN; z 0; z 1] [z 1; z 1; NaN; z 0].
Proof.
  apply (calc_ratios_prefiltered [z 1; NaN; z 0; z 1] [z 1; z 1; NaN; z 0]);
    [reflexivity | repeat constructor | repeat constructor].
Defined.

Lemma bit_finite x : bit x = true -> finite x = true.
Proof. by destruct x. Qed.

(** X10: on 0/1/missing pair vectors of one length the later [calc_ratios]
    is the earlier one behind the joint exclusion: it returns what the
    earlier [calc_ratios] returns on the fully observed pairs.  The
    statement is for 0/1/missing entries, whose sums and products binary64
    does not round: on other values [np.dot] of the earlier version and
    [np.sum] of the products of the later one may round differently. *)
Theorem calc_ratios_is_earlier_after_exclusion (link_pairs jacc_pairs : list npfloat) :
  length link_pairs = length jacc_pairs ->
  Forall (fun x => tri x = true) link_pairs ->
  Forall (fun x => tri x = true) jacc_pairs ->
  calc_ratios link_pairs jacc_pairs
  = Earlier.calc_ratios (kept link_pairs jacc_pairs).*1 (kept link_pairs jacc_pairs).*2.
Proof.
  intros Hlen Hl Hj.
  rewrite calc_ratios_kept by (done || (eapply Forall_impl; [eassumption|]; apply tri_ident)).
  by rewrite earlier_calc_ratios_over.
Qed.

Lemma calc_ratios_is_earlier_after_exclusion_witness :
  calc_ratios [z 1; NaN; z 0; z 1] [z 1; z 1; NaN; z 0]
  = Earlier.calc_ratios (kept [z 1; NaN; z 0; z 1] [z 1; z 1; NaN; z 0]).*1
                        (kept [z 1; NaN; z 0; z 1] [z 1; z 1; NaN; z 0]).*2.
Proof.
  apply (calc_ratios_is_earlier_after_exclusion [z 1; NaN; z 0; z 1] [z 1; z 1; NaN; z 0]);
    [reflexivity | repeat constructor | repeat constructor].
Defined.

(** X11: without missing data the two versions agree on indicator data: on
    vectors of one length whose entries are all 0 or 1, the later and the
    earlier [calc_ratios] return the same pair.  (On other finite values
    the sum of rounded products and [np.dot] may differ in binary64.) *)
Theorem calc_ratios_versions_agree (link_pairs jacc_pairs : list npfloat) :
  length link_pairs = length jacc_pairs ->
  Forall (fun x => bit x = true) link_pairs ->
  Forall (fun x => bit x = true) jacc_pairs ->
  calc_ratios link_pairs jacc_pairs = Earlier.calc_ratios link_pairs jacc_pairs.
Proof.
  intros Hlen Hl Hj.
  assert (Hlf : Forall (fun x => finite x = true) link_pairs)
    by (eapply Forall_impl; [exact Hl | apply bit_finite]).
  assert (Hjf : Forall (fun x => finite x = true) jacc_pairs)
    by (eapply Forall_impl; [exact Hj | apply bit_finite]).
  destruct (kept_finite link_pairs jacc_pairs Hlen Hlf Hjf) as [H1 H2].
  rewrite calc_ratios_kept;
    [| done | eapply Forall_impl; [exact Hlf | apply finite_ident]
            | eapply Forall_impl; [exact Hjf | apply finite_ident]].
  rewrite <- earlier_calc_ratios_over. by rewrite H1, H2.
Qed.

Lemma calc_ratios_versions_agree_witness :
  calc_ratios [z 1; z 0; z 0; z 1] [z 1; z 1; z 0; z 0]
  = Earlier.calc_ratios [z 1; z 0; z 0; z 1] [z 1; z 1; z 0; z 0].
Proof.
  apply (calc_ratios_versions_agree [z 1; z 0; z 0; z 1] [z 1; z 1; z 0; z 0]);
    [reflexivity | repeat constructor | repeat constructor].
Defined.

(** ** The ratios as quotients of counts *)

Lemma count_coincident (ps : list (npfloat * npfloat)) :
  Forall (fun p => bit p.1 = true /\ bit p.2 = true) ps ->
  count (fun p => is1 (fmul p.1 p.2)) ps = count (fun p => is1 p.1 && is1 p.2) ps /\
  count (fun p => is1 p.2) ps
    = count (fun p => is1 p.1 && is1 p.2) ps + count (fun p => is0 p.1 && is1 p.2) ps.
Proof.
  induction 1 as [|[a b] ps [Ha Hb] Hps [IH1 IH2]]; [done|].
  rewrite !count_cons. simpl in *.
  rewrite is1_fmul_bits, (bit_is0 a) by done.
  destruct (is1 a), (is1 b); simpl; lia.
Qed.

Lemma fdiv_quotient (x y : Q) (X Y : nat) :
  (x == inject_Z (Z.of_nat X))%Q -> (y == inject_Z (Z.of_nat Y))%Q -> Y <> 0 ->
  exists q, fdiv (Fin x) (Fin y) = Fin q /\
            (q == inject_Z (Z.of_nat X) / inject_Z (Z.of_nat Y))%Q.
Proof.
  intros Hx Hy HY. simpl.
  destruct (Qzero y) eqn:Hzy.
  - apply Qzero_spec in Hzy. rewrite Hy in Hzy.
    change 0%Q with (inject_Z 0) in Hzy.
    apply (proj1 (inject_Z_injective _ _)) in Hzy. lia.
  - eexists. split; [reflexivity|]. by rewrite Hx, Hy.
Qed.

(** X12: on 0/1/missing pair vectors of one length the sums of
    [calc_ratios] are counts over the fully observed pairs: [jl_ratio] is
    the number of linked pairs that coincide over the number of linked
    pairs, [jnl_ratio] the number of non-linked pairs that coincide over the
    number of non-linked pairs, each when its denominator is not zero. *)
Theorem calc_ratios_count_quotients (link_pairs jacc_pairs : list npfloat) :
  length link_pairs = length jacc_pairs ->
  Forall (fun x => tri x = true) link_pairs ->
  Forall (fun x => tri x = true) jacc_pairs ->
  exists jl jnl, calc_ratios link_pairs jacc_pairs = Some (jl, jnl) /\
    (n_linked link_pairs jacc_pairs <> 0 ->
       exists q, jl = Fin q /\
         (q == inject_Z (Z.of_nat (n_linked_coincident link_pairs jacc_pairs))
               / inject_Z (Z.of_nat (n_linked link_pairs jacc_pairs)))%Q) /\
    (n_not_linked link_pairs jacc_pairs <> 0 ->
       exists q, jnl = Fin q /\
         (q == inject_Z (Z.of_nat (n_not_linked_coincident link_pairs jacc_pairs))
               / inject_Z (Z.of_nat (n_not_linked link_pairs jacc_pairs)))%Q).
Proof.
  intros Hlen Hl Hj.
  rewrite calc_ratios_kept by (done || (eapply Forall_impl; [eassumption|]; apply tri_ident)).
  unfold n_linked, n_not_linked, n_linked_coincident, n_not_linked_coincident, ratios_over.
  pose proof (kept_bits link_pairs jacc_pairs Hl Hj) as Hbits.
  set (ps := kept link_pairs jacc_pairs) in *.
  destruct (count_relations ps Hbits) as (Hc1 & Hc2 & Hc3 & Hc4).
  destruct (count_coincident ps Hbits) as (Hc5 & Hc6).
  destruct (np_sum_bits fst ps) as (ql & -> & Hql).
  { eapply Forall_impl; [exact Hbits|]. by intros p [? ?]. }
  destruct (np_sum_bits snd ps) as (qj & -> & Hqj).
  { eapply Forall_impl; [exact Hbits|]. by intros p [? ?]. }
  destruct (np_sum_bits (fun p => fmul p.1 p.2) ps) as (qjl & -> & Hqjl).
  { eapply Forall_impl; [exact Hbits|]. intros p [? ?]. by apply bit_fmul. }
  simpl in Hql, Hqj, Hqjl. rewrite Hc5 in *.
  set (cL := count (fun p => is1 p.1) ps) in *.
  set (cJ := count (fun p => is1 p.2) ps) in *.
  set (cJL := count (fun p => is1 p.1 && is1 p.2) ps) in *.
  set (cJN := count (fun p => is0 p.1 && is1 p.2) ps) in *.
  set (cN := count (fun p => is0 p.1) ps) in *.
  do 2 eexists. split; [reflexivity|]. split.
  - intros HL. by apply fdiv_quotient.
  - intros HN. apply fdiv_quotient; [| |done].
    + rewrite (inject_Z_sub_nat qj qjl cJ cJL) by (done || lia).
      by replace (cJ - cJL) with cJN by lia.
    + rewrite (inject_Z_sub_nat _ ql (length ps) cL); [|reflexivity|done|lia].
      by replace (length ps - cL) with cN by lia.
Qed.

Lemma calc_ratios_count_quotients_witness :
  exists jl jnl,
    calc_ratios [z 1; NaN; z 0; z 1; z 0] [z 1; z 1; z 1; z 0; z 0] = Some (jl, jnl) /\
    (n_linked [z 1; NaN; z 0; z 1; z 0] [z 1; z 1; z 1; z 0; z 0] <> 0 ->
       exists q, jl = Fin q /\
         (q == inject_Z (Z.of_nat (n_linked_coincident [z 1; NaN; z 0; z 1; z 0]
                                                      [z 1; z 1; z 1; z 0; z 0]))
               / inject_Z (Z.of_nat (n_linked [z 1; NaN; z 0; z 1; z 0]
                                              [z 1; z 1; z 1; z 0; z 0])))%Q) /\
    (n_not_linked [z 1; NaN; z 0; z 1; z 0] [z 1; z 1; z 1; z 0; z 0] <> 0 ->
       exists q, jnl = Fin q /\
         (q == inject_Z (Z.of_nat (n_not_linked_coincident [z 1; NaN; z 0; z 1; z 0]
                                                          [z 1; z 1; z 1; z 0; z 0]))
               / inject_Z (Z.of_nat (n_not_linked [z 1; NaN; z 0; z 1; z 0]
                                                  [z 1; z 1; z 1; z 0; z 0])))%Q).
Proof.
  apply (calc_ratios_count_quotients [z 1; NaN; z 0; z 1; z 0] [z 1; z 1; z 1; z 0; z 0]);
    [reflexivity | repeat constructor | repeat constructor].
Defined.

(** ** The whole pipeline *)

Lemma tril_indices_in_range n k ij :
  ij ∈ tril_indices n k -> ij.1 < n /\ ij.2 < n.
Proof.
  unfold tril_indices. intros (i & Hij & Hi)%list_elem_of_bind.
  apply list_elem_of_bind in Hij as (j & Hij & Hj).
  apply elem_of_seq in Hi. apply elem_of_seq in Hj.
  destruct (Z.of_nat j <=? Z.of_nat i + k)%Z.
  - apply list_elem_of_singleton in Hij as ->. simpl. lia.
  - by apply elem_of_nil in Hij.
Qed.

Lemma take_inds_broadcast (f : npfloat -> npfloat -> npfloat) (xs : list npfloat)
    (inds : list (nat * nat)) :
  Forall (fun ij => ij.1 < length xs /\ ij.2 < length xs) inds ->
  exists l, take_inds (broadcast f xs xs) inds = Some l /\
            length l = length inds /\
            Forall (fun r => exists a b, a ∈ xs /\ b ∈ xs /\ r = f a b) l.
Proof.
  unfold take_inds. induction 1 as [|[i j] inds [Hi Hj] Hinds (l & Hl & Hlen & Hall)].
  - exists []. by repeat split.
  - simpl in Hi, Hj.
    destruct (lookup_lt_is_Some_2 xs i Hi) as [a Ha].
    destruct (lookup_lt_is_Some_2 xs j Hj) as [b Hb].
    exists (f a b :: l). split; [|split].
    + change (mapM ?g ((i, j) :: inds)) with (y ← g (i, j); k ← mapM g inds; mret (y :: k)).
      simpl. rewrite get_broadcast, Ha, Hb. simpl. rewrite Hl. reflexivity.
    + simpl. by f_equal.
    + constructor; [|done]. exists a, b.
      repeat split; by eapply list_elem_of_lookup_2.
Qed.

Lemma link_entry_tri a b : tri (link_entry a b) = true.
Proof.
  unfold link_entry. destruct (isnan (fadd a b)); [done|]. by destruct (feqb a b).
Qed.

(** X13: on an identifier vector and a 0/1/missing feature vector of one
    length the pipeline of the tests (both tables, the strict lower triangle
    of each, [calc_ratios]) raises nothing, and each of the two ratios it
    returns is NaN or a number of the closed interval [0, 1]; the
    identifiers may be any floats. *)
Theorem pipeline_returns_bounded_ratios (in_col feature : list npfloat) :
  length in_col = length feature ->
  Forall (fun x => tri x = true) feature ->
  exists jl jnl, pipeline in_col feature = Some (jl, jnl) /\
    (jl = NaN \/ exists q, jl = Fin q /\ (0 <= q <= 1)%Q) /\
    (jnl = NaN \/ exists q, jnl = Fin q /\ (0 <= q <= 1)%Q).
Proof.
  intros Hlen Hf. rewrite Forall_forall in Hf. unfold pipeline.
  rewrite link_table_broadcast, jaccard_table_broadcast.
  set (inds := tril_indices (length in_col) (-1)).
  assert (Hin : Forall (fun ij => ij.1 < length in_col /\ ij.2 < length in_col) inds).
  { apply Forall_forall. intros ij Hij. by apply tril_indices_in_range in Hij. }
  destruct (take_inds_broadcast link_entry in_col inds Hin) as (lp & -> & Hllen & Hlall).
  rewrite Hlen in Hin.
  destruct (take_inds_broadcast jaccard_entry feature inds Hin) as (jp & -> & Hjlen & Hjall).
  bind_some. bind_some.
  destruct (calc_ratios_counts lp jp) as (jl & jnl & -> & H1 & H2 & H3 & H4).
  - congruence.
  - eapply Forall_impl; [exact Hlall|]. intros r (a & b & _ & _ & ->). apply link_entry_tri.
  - eapply Forall_impl; [exact Hjall|]. intros r (a & b & Ha & Hb & ->).
    apply jaccard_entry_tri; by apply Hf.
  - exists jl, jnl. split; [done|]. split.
    + destruct (decide (n_linked lp jp = 0)); [left|right]; auto.
    + destruct (decide (n_not_linked lp jp = 0)); [left|right]; auto.
Qed.

Lemma pipeline_returns_bounded_ratios_witness :
  exists jl jnl, pipeline [z 7; Inf true; NaN; z 7] [z 1; NaN; z 0; z 1] = Some (jl, jnl) /\
    (jl = NaN \/ exists q, jl = Fin q /\ (0 <= q <= 1)%Q) /\
    (jnl = NaN \/ exists q, jnl = Fin q /\ (0 <= q <= 1)%Q).
Proof.
  apply (pipeline_returns_bounded_ratios [z 7; Inf true; NaN; z 7] [z 1; NaN; z 0; z 1]);
    [reflexivity | repeat constructor].
Defined.

(** ** The earlier version: its reference builders in closed form *)

(** The inner loop of [sameas] writes a 1 where the test holds and leaves
    the 0 of [np.zeros] elsewhere. *)
Lemma mark_row (c : npfloat -> bool) (col : list npfloat)
    (body : nat -> list (list npfloat) -> option (list (list npfloat))) i arr :
  arr !! i = Some (replicate (length col) (Fin 0)) ->
  (forall j t b, col !! j = Some b ->
     body j t = if c b then set_item t i j (Fin 1) else Some t) ->
  for_range (length col) body arr
  = Some (<[i := (fun b => of_bool (c b)) <$> col]> arr).
Proof.
  intros Hi Hbody. set (n := length col).
  destruct (for_range_invariant
    (fun k t => t = <[i := ((fun b => of_bool (c b)) <$> take k col)
                           ++ replicate (n - k) (Fin 0)]> arr) body n arr)
    as (s' & -> & ->).
  - simpl. rewrite Nat.sub_0_r. by rewrite list_insert_id.
  - intros k t Hk ->.
    destruct (lookup_lt_is_Some_2 col k Hk) as [b Hb].
    assert (Hik : i < length arr) by (by eapply lookup_lt_Some).
    assert (Hlen : length ((fun b => of_bool (c b)) <$> take k col) = k).
    { rewrite length_fmap, length_take. fold n. lia. }
    assert (Hnext : forall v, v = of_bool (c b) ->
              <[k := v]> (((fun b => of_bool (c b)) <$> take k col)
                          ++ replicate (n - k) (Fin 0))
              = ((fun b => of_bool (c b)) <$> take (S k) col)
                ++ replicate (n - S k) (Fin 0)).
    { intros v ->. rewrite (take_S_r col k b Hb), fmap_app. simpl.
      rewrite insert_app_r_alt by lia. rewrite Hlen, Nat.sub_diag.
      replace (n - k) with (S (n - S k)) by lia. simpl. by rewrite <- app_assoc. }
    eexists. split; [|reflexivity].
    rewrite (Hbody k _ b Hb). destruct (c b) eqn:Hc.
    + erewrite set_item_row; [| by apply list_lookup_insert_eq |].
      2:{ rewrite length_app, Hlen, length_replicate. lia. }
      rewrite list_insert_insert_eq. do 2 f_equal. by apply Hnext.
    + do 2 f_equal. rewrite <- (Hnext (Fin 0)) by done.
      symmetry. apply list_insert_id.
      rewrite lookup_app_r by lia. rewrite Hlen, Nat.sub_diag.
      apply lookup_replicate_2. lia.
  - unfold n. do 2 f_equal. by rewrite Nat.sub_diag, firstn_all, app_nil_r.
Qed.

Lemma mark_table (c : npfloat -> npfloat -> bool) (col : list npfloat)
    (body : nat -> nat -> list (list npfloat) -> option (list (list npfloat))) :
  (forall i j t a b, col !! i = Some a -> col !! j = Some b ->
     body i j t = if c a b then set_item t i j (Fin 1) else Some t) ->
  for_range (length col) (fun i arr => for_range (length col) (fun j arr => body i j arr) arr)
    (zeros (length col) (length col))
  = Some (broadcast (fun a b => of_bool (c a b)) col col).
Proof.
  intros Hbody. set (n := length col). set (arr0 := zeros n n).
  set (F := fun a b => of_bool (c a b)).
  destruct (for_range_invariant
    (fun k t => t = broadcast F (take k col) col ++ drop k arr0)
    (fun i arr => for_range n (fun j arr => body i j arr) arr) n arr0)
    as (s' & -> & ->).
  - simpl. by rewrite drop_0.
  - intros k t Hk ->.
    destruct (lookup_lt_is_Some_2 col k Hk) as [a Ha].
    eexists. split; [|reflexivity].
    assert (Hlen : length (broadcast F (take k col) col) = k).
    { rewrite length_broadcast, length_take. fold n. lia. }
    assert (Hrow : (broadcast F (take k col) col ++ drop k arr0) !! k
                   = Some (replicate n (Fin 0))).
    { rewrite lookup_app_r by lia. rewrite Hlen, Nat.sub_diag, lookup_drop, Nat.add_0_r.
      unfold arr0, zeros. by apply lookup_replicate_2. }
    unfold n at 1.
    rewrite (mark_row (c a) col _ k _ Hrow).
    2:{ intros j t b Hb. by apply Hbody. }
    f_equal. rewrite (take_S_r col k a Ha).
    assert (Hb : broadcast F (take k col ++ [a]) col
                 = broadcast F (take k col) col ++ [F a <$> col]).
    { unfold broadcast. by rewrite fmap_app. }
    rewrite Hb. rewrite insert_app_r_alt by lia. rewrite Hlen, Nat.sub_diag.
    assert (Hd : drop k arr0 = replicate n (Fin 0) :: drop (S k) arr0).
    { apply drop_S. unfold arr0, zeros. by apply lookup_replicate_2. }
    rewrite Hd. simpl. by rewrite <- app_assoc.
  - unfold arr0, n, zeros. rewrite firstn_all.
    rewrite drop_ge; [by rewrite app_nil_r|]. by rewrite length_replicate.
Qed.

Lemma sameas_broadcast col op :
  Earlier.sameas col op = Some (broadcast (sameas_entry op) col col).
Proof.
  unfold Earlier.sameas, sameas_entry.
  apply (mark_table (fun a b => truth (op a b))).
  intros i j t a b -> ->. reflexivity.
Qed.

Lemma zip_with_replicate_fmap {A B C D} (f : A -> B -> C) (g : D -> B) (a : A) (l : list D) :
  zip_with f (replicate (length l) a) (g <$> l) = (fun b => f a (g b)) <$> l.
Proof. induction l as [|x l IH]; simpl; [done|]. f_equal. exact IH. Qed.

Lemma mapM_fmap_Some {A B C} (g : B -> option C) (h : A -> B) (k : A -> C) (l : list A) :
  (forall a, g (h a) = Some (k a)) -> mapM g (h <$> l) = Some (k <$> l).
Proof.
  intros H. apply mapM_Some. induction l as [|a l IH]; simpl; constructor; [apply H | exact IH].
Qed.

Lemma jaccard_table_slow_broadcast col :
  Earlier.jaccard_table_slow col = Some (broadcast slow_entry col col).
Proof.
  unfold Earlier.jaccard_table_slow, Earlier.set_columns_where, broadcast.
  apply mapM_fmap_Some. intros a.
  rewrite decide_True by (by rewrite length_replicate, length_fmap).
  f_equal.
  exact (zip_with_replicate_fmap (fun x (m : bool) => if m then Fin 0 else x)
           (fun c => feqb c (Fin 0)) a col).
Qed.

(** ** The earlier version: its builders *)

Lemma broadcast_ext_in {A C} (f g : A -> A -> C) (xs : list A) :
  (forall a b, a ∈ xs -> b ∈ xs -> f a b = g a b) ->
  broadcast f xs xs = broadcast g xs xs.
Proof.
  intros H. unfold broadcast. apply list_fmap_ext. intros i a Ha.
  apply list_fmap_ext. intros j b Hb.
  apply H; by eapply list_elem_of_lookup_2.
Qed.

Lemma array_equal_broadcast {A} (e : npfloat -> npfloat -> bool)
    (f g : A -> A -> npfloat) (xs : list A) :
  (forall a b, a ∈ xs -> b ∈ xs -> e (f a b) (g a b) = true) ->
  array_equal (array_equal e) (broadcast f xs xs) (broadcast g xs xs) = true.
Proof.
  intros H. unfold broadcast. apply array_equal_fmap.
  apply Forall_forall. intros a Ha. apply array_equal_fmap.
  apply Forall_forall. intros b Hb. by apply H.
Qed.

Lemma earlier_link_entry_eq a b : earlier_link_entry a b = of_bool (feqb a b).
Proof. unfold earlier_link_entry. destruct b; try done. by destruct a. Qed.

Lemma is1_not_is0 a : is1 a = true -> is0 a = false.
Proof.
  unfold is0, is1. destruct a as [x| |]; simpl; try done.
  intros H1. apply not_true_is_false. intros H0.
  apply Qeq_bool_eq in H0, H1. rewrite H0 in H1. discriminate H1.
Qed.

Lemma truth_funcand a b :
  truth (Earlier.funcand a b) = negb (is0 a) && negb (is0 b).
Proof.
  unfold Earlier.funcand, truth, is0.
  destruct (feqb a (Fin 0)) eqn:Ha; simpl; [by rewrite Ha | done].
Qed.

Lemma fmul_slow_entry a b :
  bit a = true -> bit b = true -> feqb (fmul a b) (slow_entry a b) = true.
Proof.
  intros Ha Hb. pose proof (bit_is0 b Hb) as Hzb. unfold slow_entry.
  unfold bit, is0, is1 in *. destruct a as [x| |], b as [y| |]; simpl in *; try done.
  destruct (Qeq_bool y 0) eqn:H0; simpl in *.
  - apply Qeq_bool_iff. apply Qeq_bool_eq in H0. by rewrite H0, Qmult_0_r.
  - apply Qeq_bool_iff. symmetry in Hzb. apply negb_false_iff in Hzb.
    apply Qeq_bool_eq in Hzb. by rewrite Hzb, Qmult_1_r.
Qed.

Lemma fmul_sameas_entry a b :
  bit a = true -> bit b = true ->
  feqb (fmul a b) (sameas_entry Earlier.funcand a b) = true.
Proof.
  intros Ha Hb. unfold sameas_entry. rewrite truth_funcand.
  rewrite (bit_is0 a Ha), (bit_is0 b Hb), !negb_involutive.
  rewrite <- is1_fmul_bits by done.
  pose proof (bit_is0 _ (bit_fmul a b Ha Hb)) as Hz.
  destruct (is1 (fmul a b)) eqn:H1; simpl in *; [exact H1 | exact Hz].
Qed.

Lemma fmul_jaccard_entry a b :
  finite a = true -> finite b = true -> feqb (fmul a b) (jaccard_entry a b) = true.
Proof.
  unfold jaccard_entry, is0. destruct a as [x| |], b as [y| |]; simpl; try done.
  intros _ _. destruct (Qeq_bool x 0) eqn:Hx; simpl.
  - apply Qeq_bool_iff. apply Qeq_bool_eq in Hx. by rewrite Hx, Qmult_0_l.
  - destruct (Qeq_bool y 0) eqn:Hy; simpl.
    + apply Qeq_bool_iff. apply Qeq_bool_eq in Hy. by rewrite Hy, Qmult_0_r.
    + apply Qeq_bool_iff. reflexivity.
Qed.

(** X14: for every identifier vector, missing values included, the earlier
    [link_table] returns what the reference loop [sameas] returns under
    [operator.eq]. *)
Theorem earlier_link_table_is_sameas (ids : list npfloat) :
  exists M, Earlier.link_table ids = Some M /\ Earlier.sameas ids operator_eq = Some M.
Proof.
  eexists. split; [apply earlier_link_table_broadcast|].
  rewrite sameas_broadcast. f_equal. apply broadcast_ext. intros a b.
  unfold sameas_entry. simpl. symmetry. apply earlier_link_entry_eq.
Qed.

(** X15: the earlier [link_table] returns, for every identifier vector, a
    square array that equals its own transpose and whose entries are all 0
    or 1: it never marks a pair missing. *)
Theorem earlier_link_table_binary_symmetric (ids : list npfloat) :
  exists M, Earlier.link_table ids = Some M /\
    square (length ids) M /\ transpose M = M /\
    forall i j r, get M i j = Some r -> r = Fin 0 \/ r = Fin 1.
Proof.
  eexists. split; [apply earlier_link_table_broadcast|].
  split; [apply square_broadcast|]. split.
  - rewrite transpose_broadcast. apply broadcast_ext. intros a b.
    by rewrite !earlier_link_entry_eq, feqb_sym.
  - intros i j r (a & b & _ & _ & ->)%get_broadcast_Some.
    rewrite earlier_link_entry_eq. destruct (feqb a b); simpl; auto.
Qed.

(** X16: on a vector of 0 and 1 values the three earlier builders of the
    coincidence table agree as the earlier tests assert with
    [np.all(a == b)]: [jaccard_table_slow] and [sameas] under [funcand]
    return, and each equals [jaccard_table] element for element. *)
Theorem earlier_coincidence_builders_agree (col : list npfloat) :
  Forall (fun x => bit x = true) col ->
  exists S T,
    Earlier.jaccard_table_slow col = Some S /\
    Earlier.sameas col Earlier.funcand = Some T /\
    np_all_eq (Earlier.jaccard_table col) S = true /\
    np_all_eq (Earlier.jaccard_table col) T = true.
Proof.
  rewrite Forall_forall. intros Hc. do 2 eexists.
  split; [apply jaccard_table_slow_broadcast|].
  split; [apply sameas_broadcast|].
  unfold np_all_eq, Earlier.jaccard_table.
  split; apply array_equal_broadcast; intros a b Ha Hb.
  - apply fmul_slow_entry; by apply Hc.
  - apply fmul_sameas_entry; by apply Hc.
Qed.

Lemma earlier_coincidence_builders_agree_witness :
  exists S T,
    Earlier.jaccard_table_slow feature_2 = Some S /\
    Earlier.sameas feature_2 Earlier.funcand = Some T /\
    np_all_eq (Earlier.jaccard_table feature_2) S = true /\
    np_all_eq (Earlier.jaccard_table feature_2) T = true.
Proof. apply (earlier_coincidence_builders_agree feature_2). repeat constructor. Defined.

(** X17: where a 1 meets a missing value the three earlier builders of the
    coincidence table disagree: [jaccard_table] gives missing,
    [jaccard_table_slow] gives the 1 at (i, j) and missing at (j, i), so it
    is not symmetric, and [sameas] under [funcand] gives 1. *)
Theorem earlier_coincidence_builders_disagree (col : list npfloat) (i j : nat) (a b : npfloat) :
  col !! i = Some a -> col !! j = Some b ->
  is1 a = true -> isnan b = true ->
  get (Earlier.jaccard_table col) i j = Some NaN /\
  (exists S, Earlier.jaccard_table_slow col = Some S /\
             get S i j = Some a /\ get S j i = Some NaN) /\
  (exists T, Earlier.sameas col Earlier.funcand = Some T /\ get T i j = Some (Fin 1)).
Proof.
  intros Hi Hj H1 Hn. destruct b; try done.
  pose proof (is1_not_is0 a H1) as H0. split; [|split].
  - unfold Earlier.jaccard_table. rewrite get_broadcast, Hi, Hj. simpl. by destruct a.
  - eexists. split; [apply jaccard_table_slow_broadcast|].
    rewrite !get_broadcast, Hi, Hj. simpl. unfold slow_entry. by rewrite H0.
  - eexists. split; [apply sameas_broadcast|].
    rewrite get_broadcast, Hi, Hj. simpl. unfold sameas_entry.
    by rewrite truth_funcand, H0.
Qed.

Lemma earlier_coincidence_builders_disagree_witness :
  get (Earlier.jaccard_table feature_nan) 2 1 = Some NaN /\
  (exists S, Earlier.jaccard_table_slow feature_nan = Some S /\
             get S 2 1 = Some (z 1) /\ get S 1 2 = Some NaN) /\
  (exists T, Earlier.sameas feature_nan Earlier.funcand = Some T /\
             get T 2 1 = Some (Fin 1)).
Proof.
  apply (earlier_coincidence_builders_disagree feature_nan 2 1 (z 1) NaN); reflexivity.
Defined.

(** X18: a 0 paired with a missing value separates the two versions of
    [jaccard_table]: the earlier one, a plain outer product, gives missing,
    the later one gives 0. *)
Theorem jaccard_table_zero_missing_versions (col : list npfloat) (i j : nat) (a b : npfloat) :
  col !! i = Some a -> col !! j = Some b ->
  is0 a = true -> isnan b = true ->
  get (Earlier.jaccard_table col) i j = Some NaN /\
  get (jaccard_table col) i j = Some (Fin 0).
Proof.
  intros Hi Hj H0 Hn. destruct b; try done. split.
  - unfold Earlier.jaccard_table. rewrite get_broadcast, Hi, Hj. simpl. by destruct a.
  - apply (jaccard_table_zero_row_column col i j a NaN Hi Hj). by rewrite H0.
Qed.

Lemma jaccard_table_zero_missing_versions_witness :
  get (Earlier.jaccard_table feature_nan) 0 1 = Some NaN /\
  get (jaccard_table feature_nan) 0 1 = Some (Fin 0).
Proof.
  apply (jaccard_table_zero_missing_versions feature_nan 0 1 (z 0) NaN); reflexivity.
Defined.

(** X19: without missing data the builders of the two versions agree: on
    finite identifiers the earlier [link_table] returns the array of the
    later one, and on finite feature values the two [jaccard_table]s are
    equal element for element. *)
Theorem builders_versions_agree (ids feature : list npfloat) :
  Forall (fun x => finite x = true) ids ->
  Forall (fun x => finite x = true) feature ->
  Earlier.link_table ids = Some (link_table ids) /\
  np_all_eq (Earlier.jaccard_table feature) (jaccard_table feature) = true.
Proof.
  rewrite !Forall_forall. intros Hids Hf. split.
  - rewrite earlier_link_table_broadcast, link_table_broadcast. f_equal.
    apply broadcast_ext_in. intros a b Ha Hb.
    rewrite earlier_link_entry_eq. unfold link_entry.
    pose proof (Hids a Ha). pose proof (Hids b Hb). by destruct a, b.
  - rewrite jaccard_table_broadcast. unfold np_all_eq, Earlier.jaccard_table.
    apply array_equal_broadcast. intros a b Ha Hb.
    apply fmul_jaccard_entry; by apply Hf.
Qed.

Lemma builders_versions_agree_witness :
  Earlier.link_table in_col_1 = Some (link_table in_col_1) /\
  np_all_eq (Earlier.jaccard_table feature_1) (jaccard_table feature_1) = true.
Proof.
  apply (builders_versions_agree in_col_1 feature_1); repeat constructor.
Defined.

(** ** The tests of the earlier file, replayed *)

(** [test_jaccard] and [test_jaccard2], the two tests the earlier file runs. *)
Example earlier_test_jaccard_ratios :
  Earlier.pipeline in_col_1 feature_1 = Some (Fin (3 # 4), Fin (3 # 24)).
Proof. vm_compute. reflexivity. Qed.

Example earlier_test_jaccard2_ratios :
  Earlier.pipeline in_col_2 feature_2 = Some (Fin (1 # 3), Fin (2 # 7)).
Proof. vm_compute. reflexivity. Qed.
